(** * libbmc: DOI grammar, extraction and the document scanner

    A shallow embedding of [libbmc/doi.py] and [libbmc/papers/identifiers.py].

    Python [str] values are sequences of Unicode code points; they are
    modelled as lists of [N].  [re] is modelled by a backtracking matcher
    over a small pattern syntax: a matcher maps a cursor to the list of
    cursors it can stop at, in the order in which the backtracking engine
    would try them, so that the first element of the list is the match that
    [re] reports. *)

From Stdlib Require Import String Ascii.
From Stdlib Require Import List NArith Bool Arith Lia Sorted.
Import ListNotations.
Open Scope list_scope.

Set Implicit Arguments.

(** ** Characters and strings *)

Definition char := N.
Bind Scope N_scope with char.
Definition str := list char.

Definition ord (a : ascii) : char := N_of_ascii a.
Definition str_of (s : string) : str := List.map ord (list_ascii_of_string s).

Fixpoint str_eqb (a b : str) : bool :=
  match a, b with
  | [], [] => true
  | x :: a', y :: b' => N.eqb x y && str_eqb a' b'
  | _, _ => false
  end.

(** The character tables of the interpreter.  Inside ASCII the classes are
    written out below; beyond ASCII they come from the Unicode database of
    the running interpreter, which is not part of the repository, so they
    are a parameter.  The one law used is that no white-space character is
    alphanumeric. *)
Class UnicodeData := {
  uni_isalnum : char -> bool;
  uni_isspace : char -> bool;
  uni_space_not_alnum : forall c, uni_isspace c = true -> uni_isalnum c = false
}.

Definition in_range (lo hi c : char) : bool := N.leb lo c && N.leb c hi.

(** [0-9] *)
Definition is_digit (c : char) : bool := in_range 48 57 c.

Definition ascii_isalnum (c : char) : bool :=
  is_digit c || in_range 65 90 c || in_range 97 122 c.

(** ASCII white space of [str]: TAB LF VT FF CR, FS GS RS US, SPACE. *)
Definition ascii_isspace (c : char) : bool :=
  in_range 9 13 c || in_range 28 31 c || N.eqb c 32.

Section Tables.
Context {U : UnicodeData}.

Definition isalnum (c : char) : bool :=
  if N.ltb c 128 then ascii_isalnum c else uni_isalnum c.

Definition isspace (c : char) : bool :=
  if N.ltb c 128 then ascii_isspace c else uni_isspace c.

(** [\w] of a [str] pattern: alphanumeric or underscore. *)
Definition is_word (c : char) : bool := isalnum c || N.eqb c 95.

(** [\S] *)
Definition is_nonspace (c : char) : bool := negb (isspace c).

End Tables.

(** The class inside the negative lookahead of [REGEX]: the double quote
    (34), the ampersand (38) and the apostrophe (39). *)
Definition is_quote (c : char) : bool :=
  N.eqb c 34 || N.eqb c 38 || N.eqb c 39.

(** [[.]] *)
Definition is_dot (c : char) : bool := N.eqb c 46.

(** ** Patterns and the backtracking matcher *)

(** The constructs that occur in [REGEX].  [re.IGNORECASE] has no effect on
    it: the pattern contains no cased character, and the categories [\S] and
    [\b] do not depend on case. *)
Inductive regex : Type :=
| Lit (c : char)                  (* a literal character *)
| Set_ (p : char -> bool)         (* a character class or category *)
| Cat (r1 r2 : regex)             (* r1 r2 *)
| Repeat (min : nat) (r : regex)  (* greedy r{min,} : r* is {0,}, r+ is {1,} *)
| NegLook (r : regex)             (* (?!r) *)
| Bound.                          (* \b *)

(** A position in the subject: the character just before it (if any) and the
    text from it on. *)
Definition cursor : Type := option char * str.

Definition prev (c : cursor) : option char := fst c.
Definition rest (c : cursor) : str := snd c.

Section Matcher.
Context {U : UnicodeData}.

Definition word_opt (o : option char) : bool :=
  match o with Some c => is_word c | None => false end.

(** [\b]: exactly one of the two neighbouring characters is a word
    character; outside the subject counts as a non-word character. *)
Definition at_boundary (c : cursor) : bool :=
  xorb (word_opt (prev c)) (word_opt (hd_error (rest c))).

Definition step (p : char -> bool) (c : cursor) : list cursor :=
  match rest c with
  | x :: r => if p x then [(Some x, r)] else []
  | [] => []
  end.

(** The greedy loop: one more iteration is tried first, stopping here is
    tried last.  An iteration that consumes nothing is not repeated (the
    engine's guard against empty loops); [fuel] bounds the number of
    iterations by the length of the remaining text. *)
Fixpoint greedy (body : cursor -> list cursor) (fuel min : nat) (c : cursor)
  : list cursor :=
  (match fuel with
   | O => []
   | S f =>
       flat_map (fun c' =>
                   if length (rest c') <? length (rest c)
                   then greedy body f (pred min) c' else [])
                (body c)
   end) ++ (match min with O => [c] | S _ => [] end).

Fixpoint run (r : regex) (c : cursor) : list cursor :=
  match r with
  | Lit x => step (N.eqb x) c
  | Set_ p => step p c
  | Cat r1 r2 => flat_map (run r2) (run r1 c)
  | Repeat min body => greedy (run body) (length (rest c)) min c
  | NegLook r' => match run r' c with [] => [c] | _ :: _ => [] end
  | Bound => if at_boundary c then [c] else []
  end.

End Matcher.

(** The text between two cursors of the same subject, the second one reached
    from the first. *)
Definition span_text (a b : cursor) : str :=
  firstn (length (rest a) - length (rest b)) (rest a).

(** A pattern whose only capturing group stands between two group-free
    parts: [lead (group) trail]. *)
Record pattern : Type := {
  lead : regex;
  group : regex;
  trail : regex
}.

(** A match object: where the match and its group 1 start and end. *)
Record match_obj : Type := {
  m_start : cursor;
  g1_start : cursor;
  g1_end : cursor;
  m_end : cursor
}.

Definition group0 (m : match_obj) : str := span_text (m_start m) (m_end m).
Definition group1 (m : match_obj) : str := span_text (g1_start m) (g1_end m).

Section Engine.
Context {U : UnicodeData}.

(** Every way the pattern matches at a cursor, in backtracking order. *)
Definition attempts (p : pattern) (c : cursor) : list match_obj :=
  flat_map (fun s1 =>
    flat_map (fun e1 =>
      List.map (fun e => {| m_start := c; g1_start := s1;
                            g1_end := e1; m_end := e |})
               (run (trail p) e1))
      (run (group p) s1))
    (run (lead p) c).

(** [p.match(s)]: the first match at position 0, if any. *)
Definition re_match (p : pattern) (s : str) : option match_obj :=
  hd_error (attempts p (None, s)).

(** The scan behind [p.finditer(s)] and [p.findall(s)]: try each position
    from left to right; after a match, go on from its end (one character
    further if the match was empty).  Each match is reported with its start
    offset and the text of group 1. *)
Fixpoint scan (p : pattern) (fuel off : nat) (c : cursor) : list (nat * str) :=
  match fuel with
  | O => []
  | S f =>
      let next :=
        match rest c with
        | x :: r => scan p f (S off) (Some x, r)
        | [] => []
        end in
      match hd_error (attempts p c) with
      | Some m =>
          (off, group1 m) ::
          (if length (rest (m_end m)) <? length (rest c)
           then scan p f (off + (length (rest c) - length (rest (m_end m))))
                     (m_end m)
           else next)
      | None => next
      end
  end.

Definition finditer (p : pattern) (s : str) : list (nat * str) :=
  scan p (S (length s)) 0 (None, s).

(** [p.findall(s)] for a pattern with one group: the texts of group 1. *)
Definition findall (p : pattern) (s : str) : list str :=
  List.map snd (finditer p s).

End Engine.

(** ** libbmc/tools.py *)

(** Modelled from the spec: [tools.remove_duplicates] (libbmc/tools.py is
    not among the sources).  The spec has the extractor return its matches
    deduplicated while preserving first-occurrence order. *)
Fixpoint dedup_seen (seen l : list str) : list str :=
  match l with
  | [] => []
  | x :: r =>
      if existsb (str_eqb x) seen then dedup_seen seen r
      else x :: dedup_seen (x :: seen) r
  end.

Definition remove_duplicates (l : list str) : list str := dedup_seen [] l.

(** A parameter that is either one string or a list of strings. *)
Inductive arg : Type :=
| One (s : str)
| Many (l : list str).

Fixpoint first_of_each (f : str -> list str) (l : list str)
  : option (list str) :=
  match l with
  | [] => Some []
  | u :: r =>
      match f u, first_of_each f r with
      | x :: _, Some xs => Some (x :: xs)
      | _, _ => None
      end
  end.

(** Modelled from the spec: [tools.map_or_apply] (libbmc/tools.py is not
    among the sources).  By the spec and the doctests of [to_canonical] the
    result has the shape of the parameter, each string is replaced by the
    first identifier extracted from it, and the result is [None] (never an
    empty sequence, never an error) if nothing is extracted. *)
Definition map_or_apply (f : str -> list str) (param : arg) : option arg :=
  match param with
  | One s => option_map One (hd_error (f s))
  | Many l =>
      match first_of_each f l with
      | Some (x :: xs) => Some (Many (x :: xs))
      | _ => None
      end
  end.

(** ** Python values and the [requests] library, as the lookups meet them *)

(** A value parsed from JSON.  A dict is given by its items, each key once;
    a number is kept as its literal. *)
Unset Elimination Schemes.
Inductive json : Type :=
| JNull
| JBool (b : bool)
| JNum (literal : str)
| JStr (s : str)
| JList (l : list json)
| JDict (items : list (str * json)).
Set Elimination Schemes.

(** An exception, given by the names of its class and of the classes that
    class derives from, as [type(e).__mro__] lists them. *)
Record pyexn : Type := { mro : list string }.

Definition builtin (names : list string) : pyexn :=
  {| mro := names ++ ["Exception"; "BaseException"; "object"]%string |}.

Definition AssertionError : pyexn := builtin ["AssertionError"]%string.
Definition ValueError : pyexn := builtin ["ValueError"]%string.
Definition KeyError : pyexn := builtin ["KeyError"; "LookupError"]%string.
Definition IndexError : pyexn := builtin ["IndexError"; "LookupError"]%string.
Definition TypeError : pyexn := builtin ["TypeError"]%string.
Definition RecursionError : pyexn :=
  builtin ["RecursionError"; "RuntimeError"]%string.

(** [requests.exceptions.HTTPError], the error of [raise_for_status]. *)
Definition HTTPError : pyexn :=
  builtin ["HTTPError"; "RequestException"; "OSError"]%string.

(** [isinstance(e, cls)] *)
Definition isinstance (e : pyexn) (cls : string) : bool :=
  existsb (String.eqb cls) (mro e).

(** Whether [except (classes)] catches [e]. *)
Definition caught_by (classes : list string) (e : pyexn) : bool :=
  existsb (isinstance e) classes.

(** A computation that returns a value or raises. *)
Inductive py (A : Type) : Type :=
| Ret (a : A)
| Exc (e : pyexn).

Arguments Exc {A} e.

Definition py_bind (A B : Type) (m : py A) (k : A -> py B) : py B :=
  match m with
  | Ret a => k a
  | Exc e => Exc e
  end.

Declare Scope py_scope.
Delimit Scope py_scope with py.
Notation "x <- m ;; k" := (py_bind m (fun x => k))
  (at level 61, m at next level, right associativity) : py_scope.

(** [try: body except caught: return fallback] *)
Definition try_except (A : Type) (body : py A) (caught : list string)
  (fallback : A) : py A :=
  match body with
  | Ret a => Ret a
  | Exc e => if caught_by caught e then Ret fallback else Exc e
  end.

Fixpoint dict_get (key : str) (items : list (str * json)) : option json :=
  match items with
  | [] => None
  | (k, v) :: r => if str_eqb k key then Some v else dict_get key r
  end.

(** [v[key]] for a string [key]: only a dict can be subscripted with it. *)
Definition getitem (v : json) (key : str) : py json :=
  match v with
  | JDict items =>
      match dict_get key items with
      | Some x => Ret x
      | None => Exc KeyError
      end
  | _ => Exc TypeError
  end.

(** [v == s] for a string [s]. *)
Definition eq_str (v : json) (s : str) : bool :=
  match v with
  | JStr t => str_eqb t s
  | _ => false
  end.

(** The elements that [for i in v] goes through: those of a list, the keys
    of a dict, the characters of a string; other values are not iterable. *)
Definition iterate (v : json) : py (list json) :=
  match v with
  | JList l => Ret l
  | JDict items => Ret (List.map (fun kv => JStr (fst kv)) items)
  | JStr s => Ret (List.map (fun c => JStr [c]) s)
  | _ => Exc TypeError
  end.

(** [l[0]] *)
Definition first_item (l : list json) : py json :=
  match l with
  | x :: _ => Ret x
  | [] => Exc IndexError
  end.

(** [assert b], assertions being enabled. *)
Definition py_assert (b : bool) : py unit :=
  if b then Ret tt else Exc AssertionError.

(** What a response gives to the lookups: [status_code], what [json()]
    does (it returns the parsed body or raises: [ValueError] for a body that
    is not JSON, another exception such as [RecursionError] for one nested
    too deep), [headers.get] and [text]. *)
Record response : Type := {
  resp_status : N;
  resp_json : py json;
  resp_header : str -> option str;
  resp_text : str
}.

Inductive http_method : Type :=
| GET
| HEAD.

(** The network: what [requests.get] and [requests.head] do for a URL and
    headers.  They return a response or raise; what they raise is a
    [RequestException] or not (parsing the [Location] of a redirect can
    raise a plain [ValueError]). *)
Definition network : Type :=
  http_method -> str -> list (str * str) -> py response.

(** [raise_for_status()]: an [HTTPError] for the codes 400 to 599. *)
Definition raise_for_status (r : response) : py unit :=
  if N.leb 400 (resp_status r) && N.ltb (resp_status r) 600
  then Exc HTTPError else Ret tt.

Definition opt_str_eqb (o : option str) (s : str) : bool :=
  match o with
  | Some t => str_eqb t s
  | None => false
  end.

(** ** libbmc/doi.py *)

Module doi.
Section Doi.
Context {U : UnicodeData}.

(** The part of [REGEX] inside the group:
    10[.][0-9]{4,}(?:[.][0-9]+)*/(?:(?!Q)\S)+ where Q is the class
    [is_quote]. *)
Definition doi_body : regex :=
  Cat (Lit 49 (* 1 *))
 (Cat (Lit 48 (* 0 *))
 (Cat (Set_ is_dot)
 (Cat (Repeat 4 (Set_ is_digit))
 (Cat (Repeat 0 (Cat (Set_ is_dot) (Repeat 1 (Set_ is_digit))))
 (Cat (Lit 47 (* / *))
      (Repeat 1 (Cat (NegLook (Set_ is_quote)) (Set_ is_nonspace)))))))).

(** [REGEX]: the body as group 1 between two [\b]. *)
Definition REGEX : pattern :=
  {| lead := Bound; group := doi_body; trail := Bound |}.

Definition DX_URL : str := str_of "http://dx.doi.org/".

Definition is_valid (doi : str) : bool :=
  match re_match REGEX doi with
  | Some m => str_eqb (group0 m) doi
  | None => false
  end.

Definition extract_from_text (text : str) : list str :=
  remove_duplicates (findall REGEX text).

Definition to_url (dois : arg) : arg :=
  match dois with
  | Many l => Many (List.map (fun doi => DX_URL ++ doi) l)
  | One s => One (DX_URL ++ s)
  end.

Definition to_canonical (urls : arg) : option arg :=
  map_or_apply extract_from_text urls.

Definition DISSEMIN_API : str := str_of "http://beta.dissem.in/api/".

(** The URL of one DOI: [to_url(doi)] for a string. *)
Definition url_of (doi : str) : str :=
  match to_url (One doi) with
  | One u => u
  | Many _ => []
  end.

Local Open Scope py_scope.

Definition get_oa_version (net : network) (doi : str) : py json :=
  try_except
    (request <- net GET (DISSEMIN_API ++ doi) [] ;;
     _ <- raise_for_status request ;;
     result <- resp_json request ;;
     status <- getitem result (str_of "status") ;;
     _ <- py_assert (eq_str status (str_of "ok")) ;;
     paper <- getitem result (str_of "paper") ;;
     getitem paper (str_of "pdf_url"))
    ["AssertionError"; "ValueError"; "KeyError"; "RequestException"]%string
    JNull.

(** The list comprehension [[i for i in ... if i["doi"] == doi]]. *)
Fixpoint with_doi (doi : str) (items : list json) : py (list json) :=
  match items with
  | [] => Ret []
  | i :: r =>
      d <- getitem i (str_of "doi") ;;
      kept <- with_doi doi r ;;
      Ret (if eq_str d doi then i :: kept else kept)
  end.

Definition get_oa_policy (net : network) (doi : str) : py json :=
  try_except
    (request <- net GET (DISSEMIN_API ++ doi) [] ;;
     _ <- raise_for_status request ;;
     result <- resp_json request ;;
     status <- getitem result (str_of "status") ;;
     _ <- py_assert (eq_str status (str_of "ok")) ;;
     paper <- getitem result (str_of "paper") ;;
     publications <- getitem paper (str_of "publications") ;;
     items <- iterate publications ;;
     matching <- with_doi doi items ;;
     first <- first_item matching ;;
     getitem first (str_of "policy"))
    ["AssertionError"; "ValueError"; "KeyError"; "RequestException";
     "IndexError"]%string
    JNull.

Definition get_linked_version (net : network) (doi : str) : py (option str) :=
  try_except
    (request <- net HEAD (url_of doi) [] ;;
     Ret (resp_header request (str_of "location")))
    ["RequestException"]%string
    None.

Definition get_bibtex (net : network) (doi : str) : py (option str) :=
  try_except
    (request <- net GET (url_of doi)
                  [(str_of "accept", str_of "application/x-bibtex")] ;;
     _ <- raise_for_status request ;;
     _ <- py_assert (opt_str_eqb (resp_header request (str_of "content-type"))
                                 (str_of "application/x-bibtex")) ;;
     Ret (Some (resp_text request)))
    ["RequestException"; "AssertionError"]%string
    None.

Local Close Scope py_scope.

End Doi.
End doi.

(** A table that agrees with CPython on U+0080..U+00FF and classifies no
    character beyond; it serves to evaluate the definitions on concrete
    text. *)
Definition latin1_isalnum (c : char) : bool :=
  N.eqb c 170 || N.eqb c 178 || N.eqb c 179 || N.eqb c 181 || N.eqb c 185
  || N.eqb c 186 || in_range 188 190 c || in_range 192 214 c
  || in_range 216 246 c || in_range 248 255 c.

Definition latin1_isspace (c : char) : bool := N.eqb c 133 || N.eqb c 160.

#[export] Instance latin1 : UnicodeData.
Proof.
  refine {| uni_isalnum := latin1_isalnum; uni_isspace := latin1_isspace |}.
  intros c H. unfold latin1_isspace in H.
  apply orb_true_iff in H. destruct H as [H | H];
    apply N.eqb_eq in H; subst c; reflexivity.
Defined.

(** ** Text helpers of the interpreter used by the scanner *)

Definition byte := N.
Bind Scope N_scope with byte.
Definition bytes := list byte.

Definition bytes_of (s : string) : bytes := List.map N_of_ascii (list_ascii_of_string s).

Definition is_cont (b : byte) : bool := in_range 128 191 b.

(** [b.decode("utf-8")] in strict mode: [None] stands for
    [UnicodeDecodeError].  Over-long forms, surrogates and values above
    U+10FFFF are rejected. *)
Fixpoint utf8_decode (bs : bytes) : option str :=
  match bs with
  | [] => Some []
  | b0 :: t0 =>
      if N.ltb b0 128 then option_map (cons b0) (utf8_decode t0)
      else if in_range 194 223 b0 then
        match t0 with
        | b1 :: t1 =>
            if is_cont b1
            then option_map (cons ((b0 - 192) * 64 + (b1 - 128))%N)
                            (utf8_decode t1)
            else None
        | _ => None
        end
      else if in_range 224 239 b0 then
        match t0 with
        | b1 :: b2 :: t2 =>
            let cp := ((b0 - 224) * 4096 + (b1 - 128) * 64 + (b2 - 128))%N in
            if is_cont b1 && is_cont b2 && N.leb 2048 cp
               && negb (in_range 55296 57343 cp)
            then option_map (cons cp) (utf8_decode t2)
            else None
        | _ => None
        end
      else if in_range 240 244 b0 then
        match t0 with
        | b1 :: b2 :: b3 :: t3 =>
            let cp := ((b0 - 240) * 262144 + (b1 - 128) * 4096
                       + (b2 - 128) * 64 + (b3 - 128))%N in
            if is_cont b1 && is_cont b2 && is_cont b3
               && in_range 65536 1114111 cp
            then option_map (cons cp) (utf8_decode t3)
            else None
        | _ => None
        end
      else None
  end.

Fixpoint drop_while (p : char -> bool) (s : str) : str :=
  match s with
  | x :: r => if p x then drop_while p r else s
  | [] => []
  end.

Fixpoint take_while (p : char -> bool) (s : str) : str :=
  match s with
  | x :: r => if p x then x :: take_while p r else []
  | [] => []
  end.

(** [sep.join(l)] *)
Fixpoint join (sep : str) (l : list str) : str :=
  match l with
  | [] => []
  | [x] => x
  | x :: r => x ++ sep ++ join sep r
  end.

Fixpoint starts_with (pre s : str) : bool :=
  match pre, s with
  | [], _ => true
  | x :: pre', y :: s' => N.eqb x y && starts_with pre' s'
  | _ :: _, [] => false
  end.

(** [s.endswith(suffix)] *)
Definition endswith (s suffix : str) : bool :=
  starts_with (rev suffix) (rev s).


Section Strip.
Context {U : UnicodeData}.

(** [s.strip()] *)
Definition strip (s : str) : str :=
  rev (drop_while isspace (rev (drop_while isspace s))).

End Strip.

(** ** libbmc/papers/identifiers.py *)

Module identifiers.

(** What the scanner uses of an identifier module. *)
Record module : Type := {
  extract_from_text : str -> list str
}.

(** [__valid_identifiers__] together with what [sys.modules.get] answers for
    each name. *)
Definition registry : Type := list (string * option module).

(** The result tuple: [(None, None)] or [(identifier, found_id[0])]. *)
Inductive result : Type :=
| NotFound
| Found (identifier : string) (id : str).

Inductive exn : Type :=
| OSError
| UnicodeDecodeError.

Inductive outcome : Type :=
| Returns (r : result)
| Raises (e : exn).

(** The calls the scanner makes, in order. *)
Inductive event : Type :=
| Popen (argv : list str)
| Poll (running : bool)
| Readlines (lines : list bytes)
| Extract (identifier : string) (text : str)
| Terminate.

(** The conversion process as the scanner meets it: either it cannot be
    started ([Popen] raises [OSError]), or [poll()] reports it running once
    for each element of [reads], that element being what [readlines()]
    returns then, and exited afterwards.  Nothing is assumed about how the
    output is cut into reads: one read may hold all of it, and reads may be
    empty. *)
Inductive child : Type :=
| SpawnFails
| Runs (reads : list (list bytes)).

(** The process behind a pipe: [readlines()] is called without a size hint
    and returns at end of file, so the first call returns every line the
    process writes, and the calls that follow, as long as [poll()] does not
    yet report the exit, return nothing.  [polls] is the number of times
    [poll()] finds the process running. *)
Definition until_eof (output : list bytes) (polls : nat) : child :=
  Runs (match polls with
        | O => []
        | S k => output :: repeat [] k
        end).

Fixpoint decode_lines (lines : list bytes) : option (list str) :=
  match lines with
  | [] => Some []
  | i :: r =>
      match utf8_decode i with
      | None => None
      | Some t =>
          match decode_lines r with
          | None => None
          | Some ts => Some (t :: ts)
          end
      end
  end.

Section Scanner.
Context {U : UnicodeData}.

(** [extract_full] of one iteration. *)
Definition buffer_of (texts : list str) : str :=
  join [32%N] (List.map strip texts).

(** The loop over [__valid_identifiers__]. *)
Fixpoint first_hit (reg : registry) (extract_full : str)
  : option (string * str) * list event :=
  match reg with
  | [] => (None, [])
  | (identifier, None) :: more => first_hit more extract_full
  | (identifier, Some m) :: more =>
      match extract_from_text m extract_full with
      | x :: _ => (Some (identifier, x), [Extract identifier extract_full])
      | [] =>
          let (r, ev) := first_hit more extract_full in
          (r, Extract identifier extract_full :: ev)
      end
  end.

(** The [while totext.poll() is None] loop. *)
Fixpoint poll_loop (reg : registry) (reads : list (list bytes))
  : outcome * list event :=
  match reads with
  | [] => (Returns NotFound, [Poll false])
  | lines :: later =>
      match decode_lines lines with
      | None => (Raises UnicodeDecodeError, [Poll true; Readlines lines])
      | Some texts =>
          match first_hit reg (buffer_of texts) with
          | (Some (identifier, id), ev) =>
              (Returns (Found identifier id),
               Poll true :: Readlines lines :: ev ++ [Terminate])
          | (None, ev) =>
              let (o, tr) := poll_loop reg later in
              (o, Poll true :: Readlines lines :: ev ++ tr)
          end
      end
  end.

Definition spawn (reg : registry) (argv : list str) (proc : child)
  : outcome * list event :=
  match proc with
  | SpawnFails => (Raises OSError, [Popen argv])
  | Runs reads =>
      let (o, tr) := poll_loop reg reads in (o, Popen argv :: tr)
  end.

Definition find_identifiers (reg : registry) (src : str) (proc : child)
  : outcome * list event :=
  if endswith src (str_of ".pdf") then
    spawn reg [str_of "pdftotext"; src; str_of "-"] proc
  else if endswith src (str_of ".djvu") then
    spawn reg [str_of "djvutxt"; src] proc
  else (Returns NotFound, []).

(** Modelled from the spec: the initial value of [__valid_identifiers__]
    (libbmc/__init__.py is not among the sources).  The registry holds the
    one scheme that doi.py appends to it. *)
Definition valid_identifiers : registry :=
  [("doi"%string, Some {| extract_from_text := doi.extract_from_text |})].

End Scanner.

(** What [get_bibtex] uses of an identifier module, with what
    [sys.modules.get] answers for each name of [__valid_identifiers__]. *)
Definition fetchers : Type := list (string * option (str -> py (option str))).

Fixpoint fetcher_of (name : string) (reg : fetchers)
  : option (option (str -> py (option str))) :=
  match reg with
  | [] => None
  | (n, f) :: r => if String.eqb n name then Some f else fetcher_of name r
  end.

(** [get_bibtex(identifier)] for a tuple as [find_identifiers] returns it. *)
Definition get_bibtex (reg : fetchers) (identifier : result)
  : py (option str) :=
  match identifier with
  | NotFound => Ret None
  | Found identifier_type identifier_id =>
      match fetcher_of identifier_type reg with
      | None => Ret None
      | Some None => Ret None
      | Some (Some fetch) => fetch identifier_id
      end
  end.

(** The fetchers of the registry [valid_identifiers]. *)
Definition valid_fetchers (net : network) : fetchers :=
  [("doi"%string, Some (doi.get_bibtex net))].

End identifiers.

(** ** What it means for a pattern to match *)

Section Semantics.
Context {U : UnicodeData}.

Fixpoint iter_rel (R : cursor -> cursor -> Prop) (k : nat) (a b : cursor)
  : Prop :=
  match k with
  | O => b = a
  | S k' => exists m, R a m /\ iter_rel R k' m b
  end.

(** [matches r a b]: the pattern [r] matches the text between the cursors
    [a] and [b], whatever the order in which an engine looks for it. *)
Fixpoint matches (r : regex) (a b : cursor) : Prop :=
  match r with
  | Lit x => exists t, rest a = x :: t /\ b = (Some x, t)
  | Set_ p => exists x t, rest a = x :: t /\ p x = true /\ b = (Some x, t)
  | Cat r1 r2 => exists m, matches r1 a m /\ matches r2 m b
  | Repeat min body => exists k, min <= k /\ iter_rel (matches body) k a b
  | NegLook r' => b = a /\ forall m, ~ matches r' a m
  | Bound => b = a /\ at_boundary a = true
  end.

Definition matches_pattern (p : pattern) (a b : cursor) : Prop :=
  exists s1 e1,
    matches (lead p) a s1 /\ matches (group p) s1 e1 /\ matches (trail p) e1 b.

(** The grammar matches [s] anchored at both ends: a match starts at the
    first character and ends after the last one. *)
Definition full_match (p : pattern) (s : str) : Prop :=
  exists q, matches_pattern p (None, s) (q, []).

End Semantics.

(** A pattern that cannot match the empty text. *)
Fixpoint consuming (r : regex) : bool :=
  match r with
  | Lit _ | Set_ _ => true
  | Cat r1 r2 => consuming r1 || consuming r2
  | Repeat min body => (0 <? min) && consuming body
  | NegLook _ | Bound => false
  end.

(** Every loop body consumes something. *)
Fixpoint well_formed (r : regex) : bool :=
  match r with
  | Lit _ | Set_ _ | Bound => true
  | Cat r1 r2 => well_formed r1 && well_formed r2
  | Repeat _ body => consuming body && well_formed body
  | NegLook r' => well_formed r'
  end.

(** ** Auxiliary definitions *)

(** The character before a cursor that has moved over [w]. *)
Fixpoint after (pv : option char) (w : str) : option char :=
  match w with
  | [] => pv
  | x :: r => after (Some x) r
  end.

(** What the greedy loop over a class [p] yields from a cursor: the cursors
    after 0, 1, 2, ... characters of the run, the farthest first. *)
Fixpoint class_loop (p : char -> bool) (min : nat) (pv : option char) (s : str)
  : list cursor :=
  (match s with
   | x :: r => if p x then class_loop p (pred min) (Some x) r else []
   | [] => []
   end) ++ (match min with O => [(pv, s)] | S _ => [] end).

(** The characters a pattern can consume. *)
Fixpoint chars_of (r : regex) (c : char) : bool :=
  match r with
  | Lit x => N.eqb x c
  | Set_ p => p c
  | Cat r1 r2 => chars_of r1 c || chars_of r2 c
  | Repeat _ body => chars_of body c
  | NegLook _ | Bound => false
  end.

(** A pattern without assertions: what it matches does not depend on the
    text around the match. *)
Fixpoint simple (r : regex) : bool :=
  match r with
  | Lit _ | Set_ _ => true
  | Cat r1 r2 => simple r1 && simple r2
  | Repeat _ body => simple body
  | NegLook _ | Bound => false
  end.

(** [REGEX] up to and including the slash, and the loop after it. *)
Definition doi_head : regex :=
  Cat (Lit 49) (Cat (Lit 48) (Cat (Set_ is_dot)
  (Cat (Repeat 4 (Set_ is_digit))
       (Repeat 0 (Cat (Set_ is_dot) (Repeat 1 (Set_ is_digit))))))).

Definition doi_prefix : regex :=
  Cat (Lit 49) (Cat (Lit 48) (Cat (Set_ is_dot)
  (Cat (Repeat 4 (Set_ is_digit))
  (Cat (Repeat 0 (Cat (Set_ is_dot) (Repeat 1 (Set_ is_digit))))
       (Lit 47))))).

(** A digit or a dot: the characters before the slash. *)
Definition is_dd (c : char) : bool := is_digit c || is_dot c.

(** The offset of the first match whose text is [x]. *)
Fixpoint first_offset (x : str) (l : list (nat * str)) : option nat :=
  match l with
  | [] => None
  | (o, y) :: r => if str_eqb y x then Some o else first_offset x r
  end.

(** [d] stands somewhere inside [s]. *)
Definition infix (d s : str) : Prop := exists pre post, s = pre ++ d ++ post.

Section Auxiliary.
Context {U : UnicodeData}.

(** The characters the last loop of [REGEX] accepts: not in the lookahead
    class, and not white space. *)
Definition suffix_char (c : char) : bool := negb (is_quote c) && is_nonspace c.

Definition doi_suffix : regex :=
  Repeat 1 (Cat (NegLook (Set_ is_quote)) (Set_ is_nonspace)).

(** The stopping point the engine prefers after the slash: the farthest one
    that is at a word boundary. *)
Definition first_end (t : str) : option cursor :=
  hd_error (filter at_boundary (class_loop suffix_char 1 (Some 47%N) t)).

Definition mk_match (c e : cursor) : match_obj :=
  {| m_start := c; g1_start := c; g1_end := e; m_end := e |}.

Definition ends (c : cursor) : list cursor :=
  filter at_boundary (flat_map (run doi_suffix) (run doi_prefix c)).

(** The shape of a valid DOI. *)
Record doi_shape (s w a : str) : Prop := {
  shape_eq : s = w ++ 47%N :: a;
  shape_head : forallb is_dd w = true;
  shape_start : exists w', w = 49%N :: 48%N :: w';
  shape_prefix : forall pv t,
    matches doi_prefix (pv, w ++ 47%N :: t) (Some 47%N, t);
  shape_suffix : forallb suffix_char a = true;
  shape_nonempty : a <> [];
  shape_last : word_opt (after (Some 47%N) a) = true
}.

End Auxiliary.

(** ** The grammar in plain terms *)

(** A group after the first digits: a dot followed by one or more digits. *)
Definition is_group (g : str) : Prop :=
  exists ds, g = 46%N :: ds /\ ds <> [] /\ forallb is_digit ds = true.

Section Grammar.
Context {U : UnicodeData}.

(** [10.] and four or more digits, any number of groups, a slash, and one
    or more characters that are neither white space nor in the lookahead
    class, the last of them a word character. *)
Definition doi_grammar (s : str) : Prop :=
  exists ds gs a,
    s = 49%N :: 48%N :: 46%N :: ds ++ concat gs ++ 47%N :: a /\
    forallb is_digit ds = true /\ 4 <= length ds /\
    Forall is_group gs /\
    a <> [] /\ forallb suffix_char a = true /\
    word_opt (after None a) = true.

End Grammar.

(** ** Shapes of the answers of the lookups *)

Definition is_dict (v : json) : bool :=
  match v with
  | JDict _ => true
  | _ => false
  end.

(** The status codes that [raise_for_status] lets pass. *)
Definition http_ok (r : response) : bool :=
  negb (N.leb 400 (resp_status r) && N.ltb (resp_status r) 600).

(** A publication, given by the items of its dict, that has a [doi] key. *)
Definition has_doi (pub : list (str * json)) : bool :=
  match dict_get (str_of "doi") pub with
  | Some _ => true
  | None => false
  end.

(** A publication whose [doi] is the string [doi]. *)
Definition doi_is (doi : str) (pub : list (str * json)) : bool :=
  match dict_get (str_of "doi") pub with
  | Some d => eq_str d doi
  | None => false
  end.

(** The [policy] of a publication, [JNull] without one. *)
Definition policy_of (pub : option (list (str * json))) : json :=
  match pub with
  | Some items =>
      match dict_get (str_of "policy") items with
      | Some v => v
      | None => JNull
      end
  | None => JNull
  end.

(** Whether going through the items meets one that is not a dict before one
    that is a dict without a [doi] key. *)
Fixpoint meets_non_dict (items : list json) : bool :=
  match items with
  | [] => false
  | JDict pub :: r => has_doi pub && meets_non_dict r
  | _ :: _ => true
  end.

(** A network that answers every request with the same response. *)
Definition always (r : response) : network := fun _ _ _ => Ret r.

(** A network on which every request raises the same exception. *)
Definition failing (e : pyexn) : network := fun _ _ _ => Exc e.

(** A response with a JSON body and no headers. *)
Definition json_response (status : N) (body : json) : response :=
  {| resp_status := status; resp_json := Ret body;
     resp_header := fun _ => None; resp_text := [] |}.

(** A response whose [json()] raises. *)
Definition broken_json (status : N) (e : pyexn) : response :=
  {| resp_status := status; resp_json := Exc e;
     resp_header := fun _ => None; resp_text := [] |}.

(** An answer of the shape the lookups expect, with two publications. *)
Definition dissemin_publications : list (list (str * json)) :=
  [[(str_of "doi", JStr (str_of "10.1000/other"));
    (str_of "policy", JDict [(str_of "preprint", JStr (str_of "cannot"))])];
   [(str_of "doi", JStr (str_of "10.1209/0295-5075/111/40005"));
    (str_of "policy", JDict [(str_of "preprint", JStr (str_of "can"))])]].

Definition dissemin_paper : list (str * json) :=
  [(str_of "pdf_url", JStr (str_of "http://arxiv.org/abs/1506.06690"));
   (str_of "publications", JList (List.map JDict dissemin_publications))].

Definition dissemin_items : list (str * json) :=
  [(str_of "status", JStr (str_of "ok"));
   (str_of "paper", JDict dissemin_paper)].

Definition dissemin_answer : json := JDict dissemin_items.

(** An answer in BibTeX. *)
Definition bibtex_response (text : str) : response :=
  {| resp_status := 200; resp_json := Exc ValueError;
     resp_header := fun h =>
       if str_eqb h (str_of "content-type")
       then Some (str_of "application/x-bibtex") else None;
     resp_text := text |}.

(** ** Cursors and texts of a scan *)

(** Appending text to the rest of a cursor. *)
Definition extend (tail : str) (c : cursor) : cursor := (fst c, snd c ++ tail).

Section Texts.
Context {U : UnicodeData}.

(** The texts the scan of [doi.REGEX] reports from a cursor on. *)
Definition texts (c : cursor) : list str :=
  List.map snd (scan doi.REGEX (S (length (rest c))) 0 c).

End Texts.

(** * Properties *)

(** ** The matcher finds exactly the matches *)

Section MatcherFacts.
Context {U : UnicodeData}.

Lemma matches_suffix r : forall a b,
  matches r a b -> exists w, rest a = w ++ rest b.
Proof.
  induction r as [x | p | r1 IH1 r2 IH2 | min body IH | r' IH | ];
    simpl; intros a b H.
  - destruct H as (t & Ha & ->). exists [x]. exact Ha.
  - destruct H as (x & t & Ha & _ & ->). exists [x]. exact Ha.
  - destruct H as (m & H1 & H2).
    destruct (IH1 _ _ H1) as (w1 & E1). destruct (IH2 _ _ H2) as (w2 & E2).
    exists (w1 ++ w2). rewrite E1, E2. now rewrite app_assoc.
  - destruct H as (k & _ & Hk). revert a Hk.
    induction k as [| k IHk]; simpl; intros a Hk.
    + subst b. now exists [].
    + destruct Hk as (m & Hm & Hk).
      destruct (IH _ _ Hm) as (w1 & E1). destruct (IHk _ Hk) as (w2 & E2).
      exists (w1 ++ w2). rewrite E1, E2. now rewrite app_assoc.
  - destruct H as (-> & _). now exists [].
  - destruct H as (-> & _). now exists [].
Qed.

Lemma matches_length r a b :
  matches r a b -> length (rest b) <= length (rest a).
Proof.
  intros H. destruct (matches_suffix _ _ _ H) as (w & E).
  rewrite E, length_app. lia.
Qed.

Lemma consuming_shrinks r : consuming r = true -> forall a b,
  matches r a b -> length (rest b) < length (rest a).
Proof.
  induction r as [x | p | r1 IH1 r2 IH2 | min body IH | r' IH | ];
    simpl; intros C a b H; try discriminate.
  - destruct H as (t & Ha & ->). rewrite Ha. simpl. lia.
  - destruct H as (x & t & Ha & _ & ->). rewrite Ha. simpl. lia.
  - destruct H as (m & H1 & H2).
    pose proof (matches_length _ _ _ H1). pose proof (matches_length _ _ _ H2).
    apply orb_true_iff in C. destruct C as [C | C].
    + specialize (IH1 C _ _ H1). lia.
    + specialize (IH2 C _ _ H2). lia.
  - apply andb_true_iff in C. destruct C as [Cm C].
    apply Nat.ltb_lt in Cm.
    destruct H as (k & Hk & Hi). destruct k as [| k]; [lia |].
    simpl in Hi. destruct Hi as (m & Hm & Hi).
    specialize (IH C _ _ Hm).
    assert (matches (Repeat 0 body) m b) as Hr
      by (simpl; exists k; split; [lia | exact Hi]).
    pose proof (matches_length (Repeat 0 body) _ _ Hr). lia.
Qed.

Lemma greedy_sound (body : cursor -> list cursor) (R : cursor -> cursor -> Prop) :
  (forall a b, In b (body a) -> R a b) ->
  forall fuel min a b, In b (greedy body fuel min a) ->
  exists k, min <= k /\ iter_rel R k a b.
Proof.
  intros HB. induction fuel as [| f IH]; intros min a b H; simpl in H;
    [| apply in_app_or in H; destruct H as [H | H]].
  - destruct min; [| contradiction]. destruct H as [<- | []].
    exists 0. split; [lia | reflexivity].
  - apply in_flat_map in H. destruct H as (m & Hm & H).
    destruct (length (rest m) <? length (rest a)); [| contradiction].
    destruct (IH _ _ _ H) as (k & Hk & Hi).
    exists (S k). split; [lia |]. simpl. exists m. split; [now apply HB | exact Hi].
  - destruct min; [| contradiction]. destruct H as [<- | []].
    exists 0. split; [lia | reflexivity].
Qed.

Lemma greedy_complete (body : cursor -> list cursor) (R : cursor -> cursor -> Prop) :
  (forall a b, R a b -> In b (body a)) ->
  (forall a b, R a b -> length (rest b) < length (rest a)) ->
  forall k fuel min a b, iter_rel R k a b -> min <= k ->
  length (rest a) <= fuel -> In b (greedy body fuel min a).
Proof.
  intros HB HS. induction k as [| k IH]; intros fuel min a b Hi Hm Hf.
  - simpl in Hi. subst b. assert (min = 0) as -> by lia.
    destruct fuel; simpl; [now left | apply in_or_app; right; now left].
  - simpl in Hi. destruct Hi as (m & Ham & Hi).
    pose proof (HS _ _ Ham) as Hlt.
    destruct fuel as [| f]; [lia |]. simpl. apply in_or_app. left.
    apply in_flat_map. exists m. split; [now apply HB |].
    apply Nat.ltb_lt in Hlt. rewrite Hlt. apply Nat.ltb_lt in Hlt.
    apply IH; [exact Hi | lia | lia].
Qed.

Lemma in_step p a b :
  In b (step p a) <-> exists x t, rest a = x :: t /\ p x = true /\ b = (Some x, t).
Proof.
  unfold step. destruct (rest a) as [| x t].
  - split; [contradiction | intros (? & ? & ? & _); discriminate].
  - destruct (p x) eqn:E; split.
    + intros [<- | []]. now exists x, t.
    + intros (y & t' & [= <- <-] & _ & ->). now left.
    + contradiction.
    + intros (y & t' & [= <- <-] & Hp & _). congruence.
Qed.

(** On a well-formed pattern the matcher lists all and only the matches. *)
Lemma run_spec r : well_formed r = true ->
  forall a b, In b (run r a) <-> matches r a b.
Proof.
  induction r as [x | p | r1 IH1 r2 IH2 | min body IH | r' IH | ];
    simpl; intros W a b.
  - rewrite in_step. split.
    + intros (y & t & Ha & Hy & ->). apply N.eqb_eq in Hy. subst y. now exists t.
    + intros (t & Ha & ->). exists x, t. now rewrite N.eqb_refl.
  - apply in_step.
  - apply andb_true_iff in W. destruct W as [W1 W2].
    rewrite in_flat_map. split; intros (m & H1 & H2); exists m.
    + split; [now apply IH1 | now apply IH2].
    + split; [now apply IH1 | now apply IH2].
  - apply andb_true_iff in W. destruct W as [C W]. split.
    + apply greedy_sound. intros ? ?. now apply IH.
    + intros (k & Hk & Hi).
      apply greedy_complete with (R := matches body) (k := k); auto.
      * intros ? ?. now apply IH.
      * now apply consuming_shrinks.
  - destruct (run r' a) as [| m l] eqn:E; split.
    + intros [<- | []]. split; [reflexivity |].
      intros m Hm. apply IH in Hm; [| exact W]. now rewrite E in Hm.
    + intros (-> & _). now left.
    + contradiction.
    + intros (_ & Hn). exfalso. apply (Hn m). apply IH; [exact W |].
      rewrite E. now left.
  - destruct (at_boundary a) eqn:E; split.
    + intros [<- | []]. now split.
    + intros (-> & _). now left.
    + contradiction.
    + intros (_ & ?). congruence.
Qed.

End MatcherFacts.

(** ** Character facts *)

Ltac char_cases :=
  repeat match goal with
         | |- context [N.eqb ?a ?b] => destruct (N.eqb_spec a b)
         | |- context [N.leb ?a ?b] => destruct (N.leb_spec a b)
         | |- context [N.ltb ?a ?b] => destruct (N.ltb_spec a b)
         | H : context [N.eqb ?a ?b] |- _ => destruct (N.eqb_spec a b)
         | H : context [N.leb ?a ?b] |- _ => destruct (N.leb_spec a b)
         | H : context [N.ltb ?a ?b] |- _ => destruct (N.ltb_spec a b)
         end;
  simpl in *; try congruence; try lia.

Section CharFacts.
Context {U : UnicodeData}.

Lemma word_is_suffix_char c : is_word c = true -> suffix_char c = true.
Proof.
  unfold is_word, suffix_char, is_nonspace, isalnum, isspace.
  destruct (N.ltb_spec c 128) as [Hc | Hc].
  - unfold ascii_isalnum, ascii_isspace, is_digit, is_quote, in_range.
    intros H. char_cases.
  - intros H. apply orb_true_iff in H. destruct H as [H | H].
    + destruct (uni_isspace c) eqn:E.
      * apply uni_space_not_alnum in E. congruence.
      * unfold is_quote. char_cases.
    + apply N.eqb_eq in H. lia.
Qed.

Lemma digit_is_word c : is_digit c = true -> is_word c = true.
Proof.
  unfold is_word, isalnum, ascii_isalnum, is_digit, in_range.
  intros H. char_cases.
Qed.


End CharFacts.

(** ** Runs of characters *)

Lemma after_app pv w1 w2 : after pv (w1 ++ w2) = after (after pv w1) w2.
Proof. revert pv. induction w1; simpl; auto. Qed.

Lemma after_snoc pv w x : after pv (w ++ [x]) = Some x.
Proof. now rewrite after_app. Qed.

Lemma after_nonempty pv pv' w : w <> [] -> after pv w = after pv' w.
Proof. destruct w; [congruence | reflexivity]. Qed.

Lemma take_drop_while p s : s = take_while p s ++ drop_while p s.
Proof.
  induction s as [| x r IH]; simpl; [reflexivity |].
  destruct (p x); simpl; [now f_equal | reflexivity].
Qed.

Lemma take_while_all p s : forallb p (take_while p s) = true.
Proof.
  induction s as [| x r IH]; simpl; [reflexivity |].
  destruct (p x) eqn:E; simpl; [now rewrite E | reflexivity].
Qed.

Lemma drop_while_head p s x r : drop_while p s = x :: r -> p x = false.
Proof.
  induction s as [| y t IH]; simpl; [discriminate |].
  destruct (p y) eqn:E; [exact IH | now intros [= <- <-]].
Qed.

Lemma drop_while_all p s : forallb p s = true -> drop_while p s = [].
Proof.
  induction s as [| x r IH]; simpl; [reflexivity |].
  destruct (p x); simpl; [exact IH | discriminate].
Qed.

Lemma forallb_weaken (p q : char -> bool) s :
  (forall c, p c = true -> q c = true) ->
  forallb p s = true -> forallb q s = true.
Proof.
  intros H. rewrite !forallb_forall. auto.
Qed.

(** A text splits in one way only at the first character outside a class. *)
Lemma split_unique (p : char -> bool) x w1 w2 t1 t2 :
  p x = false -> forallb p w1 = true -> forallb p w2 = true ->
  w1 ++ x :: t1 = w2 ++ x :: t2 -> w1 = w2 /\ t1 = t2.
Proof.
  intros Hx. revert w2. induction w1 as [| a w1 IH]; intros [| b w2] H1 H2 E;
    simpl in *.
  - now inversion E.
  - inversion E; subst. apply andb_true_iff in H2. destruct H2. congruence.
  - inversion E; subst. apply andb_true_iff in H1. destruct H1. congruence.
  - inversion E; subst.
    apply andb_true_iff in H1. destruct H1 as [_ H1].
    apply andb_true_iff in H2. destruct H2 as [_ H2].
    destruct (IH _ H1 H2 H3) as [-> ->]. now split.
Qed.

(** ** The greedy loop over a character class *)

Section ClassLoop.
Context {U : UnicodeData}.

Lemma greedy_ext (f g : cursor -> list cursor) :
  (forall c, f c = g c) ->
  forall fuel min c, greedy f fuel min c = greedy g fuel min c.
Proof.
  intros E. induction fuel as [| n IH]; intros min c; simpl; [reflexivity |].
  rewrite E. f_equal. apply flat_map_ext. intros c'. now rewrite IH.
Qed.

Lemma greedy_step p : forall s fuel min pv,
  length s <= fuel -> greedy (step p) fuel min (pv, s) = class_loop p min pv s.
Proof.
  induction s as [| x r IH]; intros fuel min pv Hf.
  - destruct fuel; reflexivity.
  - destruct fuel as [| f]; [simpl in Hf; lia |].
    cbn [greedy class_loop].
    change (step p (pv, x :: r)) with (if p x then [(Some x, r)] else []).
    destruct (p x); [| reflexivity].
    cbn [flat_map rest snd]. rewrite app_nil_r.
    replace (length r <? length (x :: r)) with true
      by (symmetry; apply Nat.ltb_lt; simpl; lia).
    rewrite IH; [reflexivity | simpl in Hf; lia].
Qed.

Lemma in_class_loop p : forall s min pv q b,
  In (q, b) (class_loop p min pv s) <->
  exists a, s = a ++ b /\ forallb p a = true /\ min <= length a /\ q = after pv a.
Proof.
  induction s as [| x r IH]; intros min pv q b; simpl.
  - destruct min; simpl; split.
    + intros [[= <- <-] | []]. exists []. repeat split. lia.
    + intros (a & E & _ & _ & ->). symmetry in E.
      apply app_eq_nil in E. destruct E as [-> ->]. now left.
    + contradiction.
    + intros (a & E & _ & L & _). symmetry in E.
      apply app_eq_nil in E. destruct E as [-> _]. simpl in L. lia.
  - rewrite in_app_iff. split.
    + intros [H | H].
      * destruct (p x) eqn:E; [| contradiction].
        apply IH in H. destruct H as (a & -> & Ha & L & ->).
        exists (x :: a). simpl. rewrite E. repeat split; auto. lia.
      * destruct min; [| contradiction]. destruct H as [[= <- <-] | []].
        exists []. repeat split. lia.
    + intros (a & E & Ha & L & ->). destruct a as [| y a].
      * right. simpl in *. subst b. destruct min; [now left | lia].
      * left. simpl in E. inversion E; subst. simpl in Ha.
        apply andb_true_iff in Ha. destruct Ha as [-> Ha].
        apply IH. exists a. repeat split; auto. simpl in L. lia.
Qed.

Lemma class_loop_bound p : forall s min pv c,
  In c (class_loop p min pv s) -> length (rest c) <= length s.
Proof.
  intros s min pv [q b] H. apply in_class_loop in H.
  destruct H as (a & -> & _). simpl. rewrite length_app. lia.
Qed.

(** The loop lists its stopping points from the farthest to the nearest. *)
Lemma class_loop_sorted p : forall s min pv,
  StronglySorted (fun x y => length (rest x) < length (rest y))
                 (class_loop p min pv s).
Proof.
  induction s as [| x r IH]; intros min pv; simpl.
  - destruct min; repeat constructor.
  - assert (forall l : list cursor,
             StronglySorted (fun x y => length (rest x) < length (rest y)) l ->
             (forall c, In c l -> length (rest c) <= length r) ->
             StronglySorted (fun x y => length (rest x) < length (rest y))
               (l ++ match min with O => [(pv, x :: r)] | S _ => [] end)) as K.
    { induction l as [| c l IHl]; intros Hs Hb.
      - destruct min; repeat constructor.
      - inversion Hs; subst. simpl. constructor.
        + apply IHl; auto. intros; apply Hb; now right.
        + apply Forall_app. split; [assumption |].
          destruct min; constructor; [| constructor].
          simpl. specialize (Hb c (or_introl eq_refl)). lia. }
    destruct (p x).
    + apply K; [apply IH |]. intros c. apply class_loop_bound.
    + apply (K []); [constructor | intros c []].
Qed.

End ClassLoop.

(** The first element that passes a test, in a list sorted by [R], comes
    before every other element that passes. *)
Lemma hd_filter_sorted (A : Type) (R : A -> A -> Prop) (f : A -> bool) :
  forall l x, StronglySorted R l -> hd_error (filter f l) = Some x ->
  In x l /\ f x = true /\ forall y, In y l -> f y = true -> y = x \/ R x y.
Proof.
  induction l as [| a l IH]; intros x Hs H; simpl in H; [discriminate |].
  inversion Hs as [| ? ? Hs' Hall]; subst.
  destruct (f a) eqn:E.
  - simpl in H. inversion H; subst. split; [now left |]. split; [exact E |].
    intros y [-> | Hy] _; [now left |].
    right. rewrite Forall_forall in Hall. now apply Hall.
  - destruct (IH _ Hs' H) as (Hin & Hf & Hmin).
    split; [now right |]. split; [exact Hf |].
    intros y [-> | Hy] Fy; [congruence | now apply Hmin].
Qed.

Lemma hd_filter_some (A : Type) (f : A -> bool) : forall l y,
  In y l -> f y = true -> exists x, hd_error (filter f l) = Some x.
Proof.
  intros l y Hy Fy. destruct (filter f l) as [| x l'] eqn:E.
  - assert (In y (filter f l)) as K by (apply filter_In; now split).
    rewrite E in K. contradiction.
  - now exists x.
Qed.

(** ** What a match consumes *)

Section Consumed.
Context {U : UnicodeData}.

Lemma matches_consumed r : forall a b,
  matches r a b ->
  exists w, rest a = w ++ rest b /\ prev b = after (prev a) w /\
            forallb (chars_of r) w = true.
Proof.
  induction r as [x | p | r1 IH1 r2 IH2 | min body IH | r' IH | ];
    simpl; intros a b H.
  - destruct H as (t & Ha & ->). exists [x]. simpl.
    now rewrite N.eqb_refl.
  - destruct H as (x & t & Ha & Hp & ->). exists [x]. simpl.
    now rewrite Hp.
  - destruct H as (m & H1 & H2).
    destruct (IH1 _ _ H1) as (w1 & E1 & P1 & F1).
    destruct (IH2 _ _ H2) as (w2 & E2 & P2 & F2).
    exists (w1 ++ w2). rewrite E1, E2, P2, P1, app_assoc, after_app.
    repeat split. rewrite forallb_app. apply andb_true_iff. split.
    + eapply forallb_weaken; [| exact F1]. intros c ->. reflexivity.
    + eapply forallb_weaken; [| exact F2]. intros c ->. apply orb_true_r.
  - destruct H as (k & _ & Hk). revert a Hk.
    induction k as [| k IHk]; simpl; intros a Hk.
    + subst b. now exists [].
    + destruct Hk as (m & Hm & Hk).
      destruct (IH _ _ Hm) as (w1 & E1 & P1 & F1).
      destruct (IHk _ Hk) as (w2 & E2 & P2 & F2).
      exists (w1 ++ w2). rewrite E1, E2, P2, P1, app_assoc, after_app.
      repeat split. rewrite forallb_app. apply andb_true_iff.
      split; [exact F1 | exact F2].
  - destruct H as (-> & _). now exists [].
  - destruct H as (-> & _). now exists [].
Qed.

(** A match of a pattern without assertions can be replayed on the consumed
    text followed by anything. *)
Lemma simple_replay r : simple r = true -> forall a b,
  matches r a b ->
  exists w, rest a = w ++ rest b /\
            forall pv t, matches r (pv, w ++ t) (after pv w, t).
Proof.
  induction r as [x | p | r1 IH1 r2 IH2 | min body IH | r' IH | ];
    simpl; intros S a b H; try discriminate.
  - destruct H as (t & Ha & ->). exists [x]. split; [exact Ha |].
    intros pv t'. now exists t'.
  - destruct H as (x & t & Ha & Hp & ->). exists [x]. split; [exact Ha |].
    intros pv t'. now exists x, t'.
  - apply andb_true_iff in S. destruct S as [S1 S2].
    destruct H as (m & H1 & H2).
    destruct (IH1 S1 _ _ H1) as (w1 & E1 & R1).
    destruct (IH2 S2 _ _ H2) as (w2 & E2 & R2).
    exists (w1 ++ w2). split; [now rewrite E1, E2, app_assoc |].
    intros pv t. exists (after pv w1, w2 ++ t). split.
    + rewrite <- app_assoc. apply R1.
    + rewrite after_app. apply R2.
  - destruct H as (k & Hk & Hi).
    assert (exists w, rest a = w ++ rest b /\
              forall pv t, iter_rel (matches body) k (pv, w ++ t) (after pv w, t))
      as (w & E & R).
    { clear Hk. revert a Hi. induction k as [| k IHk]; simpl; intros a Hi.
      - subst b. exists []. split; [reflexivity |]. intros pv t. reflexivity.
      - destruct Hi as (m & Hm & Hi).
        destruct (IH S _ _ Hm) as (w1 & E1 & R1).
        destruct (IHk _ Hi) as (w2 & E2 & R2).
        exists (w1 ++ w2). split; [now rewrite E1, E2, app_assoc |].
        intros pv t. exists (after pv w1, w2 ++ t). split.
        + rewrite <- app_assoc. apply R1.
        + rewrite after_app. apply R2. }
    exists w. split; [exact E |]. intros pv t. exists k. split; [exact Hk | apply R].
Qed.

End Consumed.

(** ** The two halves of [REGEX] *)

Lemma flat_map_assoc (A B C : Type) (f : A -> list B) (g : B -> list C) l :
  flat_map g (flat_map f l) = flat_map (fun x => flat_map g (f x)) l.
Proof.
  induction l as [| a l IH]; simpl; [reflexivity |].
  now rewrite flat_map_app, IH.
Qed.

Lemma hd_filter_flat_map_const (A B : Type) (f : B -> bool) (G : A -> list B) e :
  forall L, (forall x, In x L -> x = e) -> L <> [] ->
  hd_error (filter f (flat_map G L)) = hd_error (filter f (G e)).
Proof.
  induction L as [| x L IH]; intros Hall Hne; [congruence |].
  cbn [flat_map]. rewrite filter_app.
  rewrite (Hall x (or_introl eq_refl)).
  destruct (filter f (G e)) as [| y l] eqn:E; [| reflexivity].
  cbn [app]. destruct L as [| x' L']; [reflexivity |].
  apply IH; [| discriminate].
  intros z Hz. apply Hall. now right.
Qed.

Lemma flat_map_guard (A B : Type) (f : A -> bool) (g : A -> A -> B) l :
  flat_map (fun e => List.map (fun e' => g e e') (if f e then [e] else [])) l
  = List.map (fun e => g e e) (filter f l).
Proof.
  induction l as [| a l IH]; simpl; [reflexivity |].
  rewrite IH. now destruct (f a).
Qed.

Section Halves.
Context {U : UnicodeData}.

Lemma run_seq (s z : regex) : forall (l : list regex) x,
  run (fold_right Cat (Cat z s) l) x
  = flat_map (run s) (run (fold_right Cat z l) x).
Proof.
  induction l as [| a l IH]; intros x; simpl; [reflexivity |].
  rewrite flat_map_assoc. apply flat_map_ext. intros y. apply IH.
Qed.

Lemma matches_seq (s z : regex) : forall (l : list regex) a b,
  matches (fold_right Cat (Cat z s) l) a b <->
  exists m, matches (fold_right Cat z l) a m /\ matches s m b.
Proof.
  induction l as [| r l IH]; intros a b; simpl; [reflexivity |].
  split.
  - intros (m1 & H1 & H2). apply IH in H2. destruct H2 as (m & H2 & H3).
    exists m. split; [| exact H3]. now exists m1.
  - intros (m & (m1 & H1 & H2) & H3). exists m1. split; [exact H1 |].
    apply IH. now exists m.
Qed.

Lemma run_doi_body c :
  run doi.doi_body c = flat_map (run doi_suffix) (run doi_prefix c).
Proof.
  exact (run_seq doi_suffix (Lit 47)
           [Lit 49; Lit 48; Set_ is_dot; Repeat 4 (Set_ is_digit);
            Repeat 0 (Cat (Set_ is_dot) (Repeat 1 (Set_ is_digit)))] c).
Qed.

Lemma matches_doi_prefix a b :
  matches doi_prefix a b <->
  exists m, matches doi_head a m /\ matches (Lit 47) m b.
Proof.
  exact (matches_seq (Lit 47)
           (Repeat 0 (Cat (Set_ is_dot) (Repeat 1 (Set_ is_digit))))
           [Lit 49; Lit 48; Set_ is_dot; Repeat 4 (Set_ is_digit)] a b).
Qed.

Lemma chars_of_head c : chars_of doi_head c = true -> is_dd c = true.
Proof.
  unfold doi_head. cbn [chars_of].
  unfold is_dd, is_digit, is_dot, in_range. intros H. char_cases.
Qed.

(** The part before the slash consists of digits and dots, starts with 10,
    and matches in the same way whatever precedes and follows it. *)
Lemma prefix_shape a e :
  matches doi_prefix a e ->
  exists w t, rest a = w ++ 47%N :: t /\ e = (Some 47%N, t) /\
              forallb is_dd w = true /\
              (exists w', w = 49%N :: 48%N :: w') /\
              forall pv t', matches doi_prefix (pv, w ++ 47%N :: t') (Some 47%N, t').
Proof.
  intros H.
  destruct (simple_replay doi_prefix eq_refl _ _ H) as (w0 & E0 & R).
  apply matches_doi_prefix in H. destruct H as (m & Hh & Hs).
  destruct (matches_consumed _ _ _ Hh) as (w & E & _ & F).
  simpl in Hs. destruct Hs as (t & Hm & ->).
  exists w, t. rewrite E, Hm. split; [reflexivity |]. split; [reflexivity |].
  split; [eapply forallb_weaken; [apply chars_of_head | exact F] |].
  split.
  - simpl in Hh. destruct Hh as (m1 & (t1 & Ea & ->) & m2 & (t2 & E1 & ->) & _).
    simpl in E1. subst t1. rewrite Ea in E.
    destruct w as [| x1 [| x2 w']]; simpl in E.
    + rewrite Hm in E. inversion E.
    + rewrite Hm in E. inversion E.
    + inversion E. now exists w'.
  - simpl in E0. rewrite E, Hm in E0.
    assert (w0 = w ++ [47%N]) as ->.
    { apply app_inv_tail with (l := t). now rewrite <- app_assoc. }
    intros pv t'. specialize (R pv t').
    now rewrite <- app_assoc, after_snoc in R.
Qed.

Lemma prefix_unique a e1 e2 :
  matches doi_prefix a e1 -> matches doi_prefix a e2 -> e1 = e2.
Proof.
  intros H1 H2.
  destruct (prefix_shape H1) as (w1 & t1 & E1 & -> & F1 & _).
  destruct (prefix_shape H2) as (w2 & t2 & E2 & -> & F2 & _).
  rewrite E1 in E2.
  destruct (split_unique is_dd 47%N w1 w2 t1 t2 eq_refl F1 F2 E2) as [_ ->].
  reflexivity.
Qed.

Lemma run_suffix_body c :
  run (Cat (NegLook (Set_ is_quote)) (Set_ is_nonspace)) c = step suffix_char c.
Proof.
  destruct c as [pv [| x r]]; simpl; unfold step; simpl; [reflexivity |].
  unfold suffix_char. destruct (is_quote x); simpl; [reflexivity |].
  unfold step. simpl. now rewrite app_nil_r.
Qed.

Lemma run_doi_suffix q t :
  run doi_suffix (q, t) = class_loop suffix_char 1 q t.
Proof.
  unfold doi_suffix. cbn [run].
  rewrite (greedy_ext _ _ run_suffix_body).
  now apply greedy_step.
Qed.

End Halves.

(** ** The match that [REGEX] reports at a cursor *)

Lemma firstn_app_exact (A : Type) (a b : list A) :
  firstn (length (a ++ b) - length b) (a ++ b) = a.
Proof.
  rewrite length_app.
  replace (length a + length b - length b) with (length a + 0) by lia.
  now rewrite firstn_app_2, app_nil_r.
Qed.

Lemma str_eqb_eq a : forall b, str_eqb a b = true <-> a = b.
Proof.
  induction a as [| x a IH]; intros [| y b]; simpl; split; try easy.
  - intros H. apply andb_true_iff in H. destruct H as [H1 H2].
    apply N.eqb_eq in H1. apply IH in H2. now subst.
  - intros [= -> ->]. rewrite N.eqb_refl. now apply IH.
Qed.

Lemma after_all (p : char -> bool) : forall w pv,
  forallb p w = true -> w <> [] -> exists x, after pv w = Some x /\ p x = true.
Proof.
  induction w as [| y w IH]; intros pv F Hne; [congruence |].
  simpl in F. apply andb_true_iff in F. destruct F as [Py F].
  destruct w as [| z w'].
  - exists y. now split.
  - simpl. apply (IH (Some y)); [exact F | discriminate].
Qed.

Section FirstMatch.
Context {U : UnicodeData}.

Lemma attempts_REGEX c :
  attempts doi.REGEX c
  = if at_boundary c then List.map (mk_match c) (ends c) else [].
Proof.
  unfold attempts. cbn [lead group trail doi.REGEX run].
  destruct (at_boundary c); [| reflexivity].
  cbn [flat_map]. rewrite app_nil_r, run_doi_body.
  unfold ends.
  exact (flat_map_guard at_boundary
           (fun e1 e => {| m_start := c; g1_start := c;
                           g1_end := e1; m_end := e |})
           (flat_map (run doi_suffix) (run doi_prefix c))).
Qed.

Lemma well_formed_prefix : well_formed doi_prefix = true.
Proof. reflexivity. Qed.

Lemma well_formed_body : well_formed doi.doi_body = true.
Proof. reflexivity. Qed.

Lemma ends_hd c t :
  matches doi_prefix c (Some 47%N, t) -> hd_error (ends c) = first_end t.
Proof.
  intros H. unfold ends, first_end.
  rewrite hd_filter_flat_map_const with (e := (Some 47%N, t)).
  - now rewrite run_doi_suffix.
  - intros x Hx. apply (run_spec _ well_formed_prefix) in Hx.
    exact (prefix_unique Hx H).
  - intros E. apply (run_spec _ well_formed_prefix) in H.
    rewrite E in H. contradiction.
Qed.

Lemma ends_nil c : (forall e, ~ matches doi_prefix c e) -> ends c = [].
Proof.
  intros H. unfold ends.
  destruct (run doi_prefix c) as [| e l] eqn:E; [reflexivity |].
  exfalso. apply (H e). apply (run_spec _ well_formed_prefix).
  rewrite E. now left.
Qed.

(** The first attempt at a cursor, if there is one. *)
Lemma first_attempt_inv c m :
  hd_error (attempts doi.REGEX c) = Some m ->
  at_boundary c = true /\
  exists t e, matches doi_prefix c (Some 47%N, t) /\
              first_end t = Some e /\ m = mk_match c e.
Proof.
  rewrite attempts_REGEX. destruct (at_boundary c); [| discriminate].
  intros H. split; [reflexivity |].
  destruct (run doi_prefix c) as [| e0 l] eqn:E.
  - unfold ends in H. rewrite E in H. discriminate.
  - assert (matches doi_prefix c e0) as He0
      by (apply (run_spec _ well_formed_prefix); rewrite E; now left).
    destruct (prefix_shape He0) as (w & t & _ & -> & _).
    destruct (ends c) as [| e l'] eqn:E'; [discriminate |].
    simpl in H. inversion H; subst m.
    exists t, e. split; [exact He0 |]. split; [| reflexivity].
    rewrite <- (ends_hd He0), E'. reflexivity.
Qed.

Lemma first_attempt_intro c t :
  at_boundary c = true -> matches doi_prefix c (Some 47%N, t) ->
  hd_error (attempts doi.REGEX c) = option_map (mk_match c) (first_end t).
Proof.
  intros B H. rewrite attempts_REGEX, B, <- (ends_hd H).
  now destruct (ends c).
Qed.

Lemma first_attempt_none c :
  at_boundary c = false \/ (forall e, ~ matches doi_prefix c e) ->
  attempts doi.REGEX c = [].
Proof.
  rewrite attempts_REGEX. intros [-> | H]; [reflexivity |].
  rewrite (ends_nil H). now destruct (at_boundary c).
Qed.

(** The preferred stopping point: its text is a non-empty run of suffix
    characters, it is at a word boundary, and it ends in a word character. *)
Lemma first_end_inv t q b :
  first_end t = Some (q, b) ->
  exists a, t = a ++ b /\ a <> [] /\ forallb suffix_char a = true /\
            q = after (Some 47%N) a /\ at_boundary (q, b) = true /\
            word_opt q = true.
Proof.
  unfold first_end. intros H.
  destruct (hd_filter_sorted at_boundary (class_loop_sorted suffix_char t 1 (Some 47%N)) H)
    as (Hin & Hb & Hmin).
  apply in_class_loop in Hin. destruct Hin as (a & -> & Fa & La & ->).
  exists a. split; [reflexivity |].
  split; [intros ->; simpl in La; lia |].
  split; [exact Fa |]. split; [reflexivity |]. split; [exact Hb |].
  destruct (word_opt (after (Some 47%N) a)) eqn:W; [reflexivity | exfalso].
  unfold at_boundary in Hb. cbn [prev rest fst snd] in Hb. rewrite W in Hb.
  simpl in Hb. destruct b as [| y b0]; [discriminate |]. simpl in Hb.
  pose proof (take_drop_while is_word (y :: b0)) as Eb.
  pose proof (take_while_all is_word (y :: b0)) as Fu.
  remember (take_while is_word (y :: b0)) as u.
  remember (drop_while is_word (y :: b0)) as v.
  assert (u <> []) as Hu by (subst u; simpl; rewrite Hb; discriminate).
  destruct (@after_all is_word u (after (Some 47%N) a) Fu Hu) as (x & Ex & Wx).
  assert (at_boundary (after (Some 47%N) (a ++ u), v) = true) as Bv.
  { unfold at_boundary. cbn [prev rest fst snd].
    rewrite after_app, Ex. simpl. rewrite Wx.
    destruct v as [| z v']; [reflexivity |]. simpl.
    symmetry in Heqv. apply drop_while_head in Heqv. now rewrite Heqv. }
  assert (In (after (Some 47%N) (a ++ u), v)
             (class_loop suffix_char 1 (Some 47%N) (a ++ y :: b0))) as Iv.
  { apply in_class_loop. exists (a ++ u). rewrite Eb, app_assoc.
    split; [reflexivity |]. split.
    - rewrite forallb_app, Fa. simpl.
      eapply forallb_weaken; [apply word_is_suffix_char | exact Fu].
    - split; [rewrite length_app; lia | reflexivity]. }
  assert (length (y :: b0) = length u + length v) as Len
    by (rewrite Eb at 1; apply length_app).
  assert (0 < length u) by (destruct u; [congruence | simpl; lia]).
  destruct (Hmin _ Iv Bv) as [E | L].
  - inversion E as [[E1 E2]]. rewrite E2 in Len. lia.
  - cbn [rest snd] in L. lia.
Qed.

(** When the whole text after the slash is a run of suffix characters that
    ends in a word character, the engine stops at its end. *)
Lemma first_end_whole a :
  forallb suffix_char a = true -> a <> [] ->
  word_opt (after (Some 47%N) a) = true ->
  first_end a = Some (after (Some 47%N) a, []).
Proof.
  intros Fa Ha W. unfold first_end.
  assert (In (after (Some 47%N) a, []) (class_loop suffix_char 1 (Some 47%N) a))
    as Hin.
  { apply in_class_loop. exists a. rewrite app_nil_r.
    repeat split; auto. destruct a; [congruence | simpl; lia]. }
  assert (at_boundary (after (Some 47%N) a, []) = true) as Hb
    by (unfold at_boundary; cbn [prev rest fst snd]; rewrite W; reflexivity).
  destruct (hd_filter_some at_boundary _ _ Hin Hb) as (x & Hx).
  rewrite Hx. f_equal.
  destruct (hd_filter_sorted at_boundary
              (class_loop_sorted suffix_char a 1 (Some 47%N)) Hx)
    as (_ & _ & Hmin).
  destruct (Hmin _ Hin Hb) as [E | L]; [now symmetry |].
  cbn [rest snd length] in L. lia.
Qed.

End FirstMatch.

(** ** [is_valid] *)

Section Validity.
Context {U : UnicodeData}.

Lemma prefix_boundary pv s e :
  matches doi_prefix (pv, s) e -> at_boundary (pv, s) = negb (word_opt pv).
Proof.
  intros H. destruct (prefix_shape H) as (w & t & E & _ & _ & (w' & ->) & _).
  cbn [rest snd] in E. subst s. unfold at_boundary. cbn.
  now destruct (word_opt pv).
Qed.

Lemma no_prefix_at_end q e : ~ matches doi_prefix (q, []) e.
Proof.
  intros H. destruct (prefix_shape H) as (w & t & E & _).
  cbn [rest snd] in E. destruct w; discriminate.
Qed.

Lemma no_prefix_other pv x r e : x <> 49%N -> ~ matches doi_prefix (pv, x :: r) e.
Proof.
  intros Hx H. destruct (prefix_shape H) as (w & t & E & _ & _ & (w' & ->) & _).
  cbn [rest snd] in E. inversion E. congruence.
Qed.

Lemma valid_intro s w a : doi_shape s w a -> doi.is_valid s = true.
Proof.
  intros [-> Fw Sw Pw Fa Na La].
  unfold doi.is_valid, re_match.
  rewrite (@first_attempt_intro _ (None, w ++ 47%N :: a) a).
  - rewrite (first_end_whole Fa Na La). cbn [option_map].
    unfold group0, mk_match, span_text. cbn [m_start m_end rest snd length].
    rewrite Nat.sub_0_r, firstn_all. now apply str_eqb_eq.
  - exact (prefix_boundary (Pw None a)).
  - apply Pw.
Qed.

(** What the first attempt at a cursor consumes has the shape of a valid
    DOI. *)
Lemma first_attempt_shape c m :
  hd_error (attempts doi.REGEX c) = Some m ->
  exists w a, doi_shape (group1 m) w a /\ group0 m = group1 m /\
              word_opt (prev c) = false /\
              rest c = group1 m ++ rest (m_end m).
Proof.
  intros H. destruct (first_attempt_inv _ H) as (B & t & [q b] & Hp & He & ->).
  destruct (prefix_shape Hp) as (w & t' & E & [= <-] & Fw & Sw & Pw).
  destruct (first_end_inv _ He) as (a & -> & Na & Fa & -> & _ & La).
  assert (span_text c (after (Some 47%N) a, b) = w ++ 47%N :: a) as G.
  { unfold span_text. cbn [rest snd] in *. rewrite E.
    replace (w ++ 47%N :: a ++ b) with ((w ++ 47%N :: a) ++ b)
      by (now rewrite <- app_assoc).
    apply firstn_app_exact. }
  exists w, a. unfold group1, group0, mk_match.
  cbn [m_start m_end g1_start g1_end]. rewrite G.
  split; [now constructor |]. split; [reflexivity |]. split.
  - destruct c as [pv s]. rewrite (prefix_boundary Hp) in B.
    cbn [prev fst]. now destruct (word_opt pv).
  - cbn [rest snd]. rewrite E. now rewrite <- app_assoc.
Qed.

Lemma valid_inv s : doi.is_valid s = true -> exists w a, doi_shape s w a.
Proof.
  unfold doi.is_valid, re_match.
  destruct (hd_error (attempts doi.REGEX (None, s))) as [m |] eqn:E;
    [| discriminate].
  intros H. apply str_eqb_eq in H.
  destruct (first_attempt_shape _ E) as (w & a & Sh & G & _).
  rewrite <- G, H in Sh. now exists w, a.
Qed.

Lemma valid_iff_shape s : doi.is_valid s = true <-> exists w a, doi_shape s w a.
Proof.
  split; [apply valid_inv | intros (w & a & H); exact (valid_intro H)].
Qed.

(** What the engine reports is itself valid. *)
Lemma first_attempt_valid c m :
  hd_error (attempts doi.REGEX c) = Some m -> doi.is_valid (group1 m) = true.
Proof.
  intros H. destruct (first_attempt_shape _ H) as (w & a & Sh & _).
  exact (valid_intro Sh).
Qed.

(** At a valid DOI that follows a non-word character, the engine reports the
    whole of it. *)
Lemma first_attempt_at_valid pv d :
  doi.is_valid d = true -> word_opt pv = false ->
  exists q, hd_error (attempts doi.REGEX (pv, d)) = Some (mk_match (pv, d) (q, [])).
Proof.
  intros V W. destruct (valid_inv _ V) as (w & a & [-> Fw Sw Pw Fa Na La]).
  exists (after (Some 47%N) a).
  rewrite (@first_attempt_intro _ (pv, w ++ 47%N :: a) a).
  - now rewrite (first_end_whole Fa Na La).
  - pose proof (prefix_boundary (Pw pv a)) as K.
    rewrite W in K. exact K.
  - apply Pw.
Qed.


End Validity.

(** ** The scan *)

Section Scan.
Context {U : UnicodeData}.

Lemma scan_at_end fuel off q : scan doi.REGEX fuel off (q, []) = [].
Proof.
  destruct fuel as [| f]; [reflexivity |]. cbn [scan rest snd].
  rewrite first_attempt_none; [reflexivity |].
  right. intros e. apply no_prefix_at_end.
Qed.

Lemma scan_skip fuel off pv x r :
  x <> 49%N ->
  scan doi.REGEX (S fuel) off (pv, x :: r)
  = scan doi.REGEX fuel (S off) (Some x, r).
Proof.
  intros Hx. cbn [scan rest snd].
  rewrite first_attempt_none; [reflexivity |].
  right. intros e. now apply no_prefix_other.
Qed.

Lemma scan_valid fuel off pv d :
  doi.is_valid d = true -> word_opt pv = false ->
  scan doi.REGEX (S fuel) off (pv, d) = [(off, d)].
Proof.
  intros V W. destruct (first_attempt_at_valid pv _ V W) as (q & E).
  cbn [scan]. rewrite E.
  unfold group1, mk_match, span_text.
  cbn [g1_start g1_end m_end rest snd length].
  rewrite Nat.sub_0_r, firstn_all.
  destruct (valid_inv _ V) as (w & a & [-> _ _ _ _ _ _]).
  replace (0 <? length (w ++ 47%N :: a)) with true.
  - now rewrite scan_at_end.
  - symmetry. apply Nat.ltb_lt. rewrite length_app. simpl. lia.
Qed.

Lemma findall_valid d : doi.is_valid d = true -> findall doi.REGEX d = [d].
Proof.
  intros V. unfold findall, finditer.
  now rewrite (scan_valid (length d) 0 None _ V eq_refl).
Qed.

(** Whatever the scan reports was the first attempt at some cursor. *)
Lemma scan_reports fuel : forall off c o x,
  In (o, x) (scan doi.REGEX fuel off c) ->
  exists c' m, hd_error (attempts doi.REGEX c') = Some m /\ x = group1 m /\
               exists pre, rest c = pre ++ rest c'.
Proof.
  induction fuel as [| f IH]; intros off c o x H; [contradiction |].
  cbn [scan] in H.
  assert (forall o x,
            In (o, x) match rest c with
                      | [] => []
                      | y :: r => scan doi.REGEX f (S off) (Some y, r)
                      end ->
            exists c' m, hd_error (attempts doi.REGEX c') = Some m /\
                         x = group1 m /\ exists pre, rest c = pre ++ rest c')
    as Next.
  { intros o' x' H'. destruct (rest c) as [| y r] eqn:Er; [contradiction |].
    destruct (IH _ _ _ _ H') as (c' & m & Hm & Hx & pre & Ep).
    exists c', m. split; [exact Hm |]. split; [exact Hx |].
    exists (y :: pre). cbn [rest snd] in Ep. now rewrite Ep. }
  destruct (hd_error (attempts doi.REGEX c)) as [m |] eqn:E; [| exact (Next _ _ H)].
  destruct H as [H | H].
  - inversion H; subst. exists c, m. split; [exact E |].
    split; [reflexivity |]. now exists [].
  - destruct (length (rest (m_end m)) <? length (rest c)); [| exact (Next _ _ H)].
    destruct (IH _ _ _ _ H) as (c' & m' & Hm & Hx & pre & Ep).
    exists c', m'. split; [exact Hm |]. split; [exact Hx |].
    destruct (first_attempt_shape _ E) as (_ & _ & _ & _ & _ & Er).
    exists (group1 m ++ pre). now rewrite Er, Ep, app_assoc.
Qed.

End Scan.

(** * The claims about doi.py *)

Section DoiClaims.
Context {U : UnicodeData}.

(** C1. [is_valid s] is true exactly when the grammar [REGEX] matches [s]
    anchored at both ends, that is, when the match that [REGEX.match]
    reports at the start of [s] is the whole of [s]; a string in which the
    scan finds a match other than the string itself is rejected. *)
Theorem is_valid_anchored (s : str) :
  (doi.is_valid s = true <-> full_match doi.REGEX s) /\
  (doi.is_valid s = true <->
   exists m, re_match doi.REGEX s = Some m /\ group0 m = s) /\
  (forall x, In x (findall doi.REGEX s) -> x <> s -> doi.is_valid s = false).
Proof.
  split; [| split].
  - split.
    + intros V. destruct (valid_inv _ V) as (w & a & [-> Fw Sw Pw Fa Na La]).
      exists (after (Some 47%N) a), (None, w ++ 47%N :: a), (after (Some 47%N) a, []).
      cbn [lead group trail doi.REGEX]. split; [| split].
      * simpl. split; [reflexivity |]. exact (prefix_boundary (Pw None a)).
      * apply (run_spec _ well_formed_body). rewrite run_doi_body.
        apply in_flat_map. exists (Some 47%N, a). split.
        -- apply (run_spec _ well_formed_prefix). apply Pw.
        -- rewrite run_doi_suffix. apply in_class_loop. exists a.
           rewrite app_nil_r. repeat split; auto.
           destruct a; [congruence | simpl; lia].
      * simpl. split; [reflexivity |].
        unfold at_boundary. cbn [prev rest fst snd]. now rewrite La.
    + intros (q & s1 & e1 & H1 & H2 & H3).
      cbn [lead group trail doi.REGEX] in *. simpl in H1, H3.
      destruct H1 as (-> & B1). destruct H3 as (E3 & B3). subst e1.
      apply (run_spec _ well_formed_body) in H2. rewrite run_doi_body in H2.
      apply in_flat_map in H2. destruct H2 as (e0 & He0 & Hs).
      apply (run_spec _ well_formed_prefix) in He0.
      destruct (prefix_shape He0) as (w & t & E & -> & Fw & Sw & Pw).
      rewrite run_doi_suffix in Hs. apply in_class_loop in Hs.
      destruct Hs as (a & -> & Fa & La & ->). rewrite app_nil_r in *.
      cbn [rest snd] in E. subst s.
      apply (@valid_intro _ _ w a). constructor; auto.
      * intros ->. simpl in La. lia.
      * unfold at_boundary in B3. cbn [prev rest fst snd hd_error] in B3.
        now destruct (word_opt (after (Some 47%N) a)).
  - unfold doi.is_valid.
    destruct (re_match doi.REGEX s) as [m |]; split.
    + intros H. exists m. split; [reflexivity | now apply str_eqb_eq].
    + intros (m' & [= <-] & H). now apply str_eqb_eq.
    + discriminate.
    + intros (m' & H & _). discriminate.
  - intros x Hx Hne. destruct (doi.is_valid s) eqn:V; [| reflexivity].
    rewrite (findall_valid _ V) in Hx. destruct Hx as [<- | []]. congruence.
Qed.

(** C3 (as amended). For a valid [s], every string with one more character
    in front is invalid; with one more character [c] at the end the string
    is valid exactly when [c] is a word character. *)
Theorem is_valid_extra_character (s : str) (c : char) :
  doi.is_valid s = true ->
  doi.is_valid (c :: s) = false /\ doi.is_valid (s ++ [c]) = is_word c.
Proof.
  intros V. destruct (valid_inv _ V) as (w & a & [-> Fw Sw Pw Fa Na La]).
  split.
  - destruct (doi.is_valid (c :: w ++ 47%N :: a)) eqn:V'; [| reflexivity].
    destruct (valid_inv _ V') as (w2 & a2 & [E2 _ (w2' & ->) _ _ _ _]).
    destruct Sw as (w' & ->). simpl in E2. inversion E2.
  - destruct (is_word c) eqn:Wc.
    + apply (@valid_intro _ _ w (a ++ [c])). constructor; auto.
      * now rewrite <- app_assoc.
      * rewrite forallb_app, Fa. simpl.
        now rewrite (word_is_suffix_char _ Wc).
      * now destruct a.
      * rewrite after_snoc. exact Wc.
    + destruct (doi.is_valid ((w ++ 47%N :: a) ++ [c])) eqn:V'; [| reflexivity].
      destruct (valid_inv _ V') as (w2 & a2 & [E2 _ _ _ _ _ L2]).
      assert (after None ((w ++ 47%N :: a) ++ [c]) = after (Some 47%N) a2) as K.
      { rewrite E2, after_app. reflexivity. }
      rewrite after_snoc in K. rewrite <- K in L2. simpl in L2. congruence.
Qed.

End DoiClaims.

(** ** Deduplication *)

Lemma existsb_str_eqb x seen : existsb (str_eqb x) seen = true <-> In x seen.
Proof.
  rewrite existsb_exists. split.
  - intros (y & Hy & E). apply str_eqb_eq in E. now subst.
  - intros H. exists x. split; [exact H | now apply str_eqb_eq].
Qed.

Lemma in_dedup_seen l : forall seen x,
  In x (dedup_seen seen l) <-> In x l /\ ~ In x seen.
Proof.
  induction l as [| a l IH]; intros seen x; simpl; [tauto |].
  destruct (existsb (str_eqb a) seen) eqn:E.
  - apply existsb_str_eqb in E. rewrite IH. split.
    + tauto.
    + intros [[-> | H] N]; [contradiction | tauto].
  - assert (~ In a seen) as Na
      by (intros K; apply existsb_str_eqb in K; congruence).
    simpl. rewrite IH. simpl. split.
    + intros [-> | [H N]]; [tauto |]. split; [tauto |]. intros K. apply N. now right.
    + intros [[-> | H] N]; [now left |].
      destruct (list_eq_dec N.eq_dec a x) as [-> | D]; [now left |].
      right. split; [exact H |]. intros [K | K]; [congruence | contradiction].
Qed.

Lemma dedup_seen_NoDup l : forall seen, NoDup (dedup_seen seen l).
Proof.
  induction l as [| a l IH]; intros seen; simpl; [constructor |].
  destruct (existsb (str_eqb a) seen); [apply IH |].
  constructor; [| apply IH].
  intros K. apply in_dedup_seen in K. destruct K as [_ K]. apply K. now left.
Qed.

Lemma in_split_first (x : str) l :
  In x l -> exists l1 l2, l = l1 ++ x :: l2 /\ ~ In x l1.
Proof.
  induction l as [| a l IH]; intros H; [contradiction |].
  destruct (list_eq_dec N.eq_dec a x) as [-> | D].
  - exists [], l. split; [reflexivity | intros []].
  - destruct H as [-> | H]; [congruence |].
    destruct (IH H) as (l1 & l2 & -> & N).
    exists (a :: l1), l2. split; [reflexivity |].
    intros [K | K]; [congruence | contradiction].
Qed.

(** In the result, elements stand in the order of their first occurrences
    in the argument. *)
Lemma dedup_seen_order l : forall seen i j x y,
  i < j ->
  nth_error (dedup_seen seen l) i = Some x ->
  nth_error (dedup_seen seen l) j = Some y ->
  exists l1 l2 l3, l = l1 ++ x :: l2 ++ y :: l3 /\
                   ~ In x l1 /\ ~ In y (l1 ++ x :: l2).
Proof.
  induction l as [| a l IH]; intros seen i j x y Hij Hx Hy; simpl in *.
  - destruct i; discriminate.
  - destruct (existsb (str_eqb a) seen) eqn:E.
    + apply existsb_str_eqb in E.
      pose proof (nth_error_In _ _ Hx) as Ix. apply in_dedup_seen in Ix.
      pose proof (nth_error_In _ _ Hy) as Iy. apply in_dedup_seen in Iy.
      destruct (IH _ _ _ _ _ Hij Hx Hy) as (l1 & l2 & l3 & -> & N1 & N2).
      exists (a :: l1), l2, l3. split; [reflexivity |]. split.
      * intros [K | K]; [subst; tauto | contradiction].
      * simpl. intros [K | K]; [subst; tauto | contradiction].
    + destruct j as [| j]; [lia |]. simpl in Hy.
      pose proof (nth_error_In _ _ Hy) as Iy. apply in_dedup_seen in Iy.
      destruct Iy as [Iy Ny].
      assert (a <> y) as Day by (intros ->; apply Ny; now left).
      destruct i as [| i]; simpl in Hx.
      * inversion Hx; subst a.
        destruct (in_split_first _ _ Iy) as (l2 & l3 & -> & N).
        exists [], l2, l3. split; [reflexivity |]. split; [intros [] |].
        simpl. intros [K | K]; [congruence | contradiction].
      * pose proof (nth_error_In _ _ Hx) as Ix. apply in_dedup_seen in Ix.
        destruct Ix as [Ix Nx].
        assert (a <> x) as Dax by (intros ->; apply Nx; now left).
        destruct (IH _ _ _ _ _ (proj2 (Nat.succ_lt_mono i j) Hij) Hx Hy)
          as (l1 & l2 & l3 & -> & N1 & N2).
        exists (a :: l1), l2, l3. split; [reflexivity |]. split.
        -- intros [K | K]; [congruence | contradiction].
        -- simpl. intros [K | K]; [congruence | contradiction].
Qed.

(** ** Offsets of the matches *)

Lemma first_offset_app x l1 o l2 :
  ~ In x (List.map snd l1) ->
  first_offset x (l1 ++ (o, x) :: l2) = Some o.
Proof.
  induction l1 as [| [o' y] l1 IH]; simpl; intros N.
  - assert (str_eqb x x = true) as -> by now apply str_eqb_eq.
    reflexivity.
  - destruct (str_eqb y x) eqn:E.
    + apply str_eqb_eq in E. subst. exfalso. apply N. now left.
    + apply IH. intros K. apply N. now right.
Qed.

Section Offsets.
Context {U : UnicodeData}.

Lemma scan_offsets (p : pattern) fuel : forall off c,
  StronglySorted (fun a b => fst a < fst b) (scan p fuel off c) /\
  Forall (fun a => off <= fst a) (scan p fuel off c).
Proof.
  induction fuel as [| f IH]; intros off c; [split; constructor |].
  cbn [scan].
  assert (StronglySorted (fun a b => fst a < fst b)
            match rest c with
            | [] => []
            | x :: r => scan p f (S off) (Some x, r)
            end /\
          Forall (fun a => S off <= fst a)
            match rest c with
            | [] => []
            | x :: r => scan p f (S off) (Some x, r)
            end) as [N1 N2].
  { destruct (rest c); [split; constructor | apply IH]. }
  assert (forall l : list (nat * str),
            Forall (fun a => S off <= fst a) l ->
            Forall (fun a => off <= fst a) l) as Weak.
  { intros l. apply Forall_impl. intros a. lia. }
  destruct (hd_error (attempts p c)) as [m |]; [| split; auto].
  destruct (Nat.ltb_spec (length (rest (m_end m))) (length (rest c))) as [L | L].
  - destruct (IH (off + (length (rest c) - length (rest (m_end m)))) (m_end m))
      as [S1 S2].
    split; constructor; auto.
    + eapply Forall_impl; [| exact S2]. intros a. simpl. lia.
    + eapply Forall_impl; [| exact S2]. intros a. simpl. lia.
  - split; constructor; auto.
Qed.

(** Every match is reported with the offset at which its text stands. *)
Lemma scan_occurs t fuel : forall off c o x,
  skipn off t = rest c ->
  In (o, x) (scan doi.REGEX fuel off c) ->
  firstn (length x) (skipn o t) = x.
Proof.
  induction fuel as [| f IH]; intros off c o x Inv H; [contradiction |].
  cbn [scan] in H.
  assert (In (o, x) match rest c with
                    | [] => []
                    | y :: r => scan doi.REGEX f (S off) (Some y, r)
                    end -> firstn (length x) (skipn o t) = x) as Next.
  { destruct (rest c) as [| y r] eqn:Er; [contradiction |].
    apply IH. cbn [rest snd].
    replace (S off) with (1 + off) by lia.
    now rewrite <- skipn_skipn, Inv. }
  destruct (hd_error (attempts doi.REGEX c)) as [m |] eqn:E; [| exact (Next H)].
  destruct (first_attempt_shape _ E) as (_ & _ & _ & _ & _ & Er).
  destruct H as [H | H].
  - inversion H; subst. rewrite Inv, Er.
    now rewrite firstn_app, Nat.sub_diag, firstn_all, app_nil_r.
  - destruct (length (rest (m_end m)) <? length (rest c)); [| exact (Next H)].
    revert H. apply IH.
    rewrite Er, length_app.
    replace (length (group1 m) + length (rest (m_end m)) - length (rest (m_end m)))
      with (length (group1 m)) by lia.
    rewrite Nat.add_comm, <- skipn_skipn, Inv, Er.
    now rewrite skipn_app, Nat.sub_diag, skipn_all.
Qed.

End Offsets.

Lemma sorted_app_lt (A : Type) (R : A -> A -> Prop) (l1 : list A) a l2 :
  StronglySorted R (l1 ++ a :: l2) -> forall b, In b l2 -> R a b.
Proof.
  induction l1 as [| c l1 IH]; simpl; intros H b Hb.
  - inversion H as [| ? ? _ F]; subst. rewrite Forall_forall in F. now apply F.
  - inversion H; subst. now apply IH.
Qed.

Section ExtractClaims.
Context {U : UnicodeData}.

Lemma in_findall x t :
  In x (findall doi.REGEX t) <-> exists o, In (o, x) (finditer doi.REGEX t).
Proof.
  unfold findall. rewrite in_map_iff. split.
  - intros ([o y] & <- & H). now exists o.
  - intros (o & H). now exists (o, x).
Qed.

Lemma in_extract x t :
  In x (doi.extract_from_text t) <-> In x (findall doi.REGEX t).
Proof.
  unfold doi.extract_from_text, remove_duplicates.
  rewrite in_dedup_seen. simpl. tauto.
Qed.

(** C4. [extract_from_text t] has no duplicates; its elements are the texts
    of the matches found in [t], each standing in [t] at the offset it is
    reported with; they are ordered by the offset of their first match; and
    two calls on the same text give the same sequence.  (The deduplication
    helper is modelled from the spec.) *)
Theorem extract_from_text_dedup_order (t : str) :
  NoDup (doi.extract_from_text t) /\
  (forall x, In x (doi.extract_from_text t) <->
             exists o, In (o, x) (finditer doi.REGEX t)) /\
  (forall o x, In (o, x) (finditer doi.REGEX t) ->
               firstn (length x) (skipn o t) = x) /\
  (forall i j x y,
      i < j ->
      nth_error (doi.extract_from_text t) i = Some x ->
      nth_error (doi.extract_from_text t) j = Some y ->
      exists p q, first_offset x (finditer doi.REGEX t) = Some p /\
                  first_offset y (finditer doi.REGEX t) = Some q /\ p < q) /\
  (forall r1 r2, r1 = doi.extract_from_text t ->
                 r2 = doi.extract_from_text t -> r1 = r2).
Proof.
  split; [apply dedup_seen_NoDup |].
  split; [intros x; rewrite in_extract; apply in_findall |].
  split.
  { intros o x H. unfold finditer in H.
    exact (scan_occurs t _ 0 (None, t) _ _ eq_refl H). }
  split; [| intros r1 r2 -> ->; reflexivity].
  intros i j x y Hij Hx Hy.
  destruct (@dedup_seen_order (findall doi.REGEX t) [] i j x y Hij Hx Hy)
    as (l1 & l2 & l3 & E & N1 & N2).
  unfold findall in E.
  apply map_eq_app in E. destruct E as (F1 & F1' & EF & E1 & E).
  apply map_eq_cons in E. destruct E as ([p x'] & F2' & -> & Ex & E).
  apply map_eq_app in E. destruct E as (F2 & F3' & -> & E2 & E).
  apply map_eq_cons in E. destruct E as ([q y'] & F3 & -> & Ey & E3).
  simpl in Ex, Ey. subst x' y' l1 l2.
  exists p, q. rewrite EF. split; [now apply first_offset_app |]. split.
  - replace (F1 ++ (p, x) :: F2 ++ (q, y) :: F3)
      with ((F1 ++ (p, x) :: F2) ++ (q, y) :: F3)
      by (now rewrite <- app_assoc).
    apply first_offset_app. rewrite map_app. exact N2.
  - destruct (scan_offsets doi.REGEX (S (length t)) 0 (None, t)) as [Srt _].
    fold (finditer doi.REGEX t) in Srt. rewrite EF in Srt.
    apply (sorted_app_lt _ _ _ Srt (q, y)). apply in_or_app. right. now left.
Qed.

(** C7. Every string that [extract_from_text] returns is itself matched by
    the grammar from start to end. *)
Theorem extract_from_text_valid (t x : str) :
  In x (doi.extract_from_text t) -> doi.is_valid x = true.
Proof.
  rewrite in_extract, in_findall. intros (o & H). unfold finditer in H.
  destruct (scan_reports _ _ _ _ _ H) as (c' & m & Hm & -> & _).
  exact (first_attempt_valid _ Hm).
Qed.

Lemma findall_url d :
  doi.is_valid d = true -> findall doi.REGEX (doi.DX_URL ++ d) = [d].
Proof.
  intros V. unfold findall, finditer.
  change doi.DX_URL
    with [104; 116; 116; 112; 58; 47; 47; 100; 120; 46; 100; 111; 105; 46;
          111; 114; 103; 47]%N.
  cbn [app length].
  rewrite !scan_skip by (intros K; discriminate K).
  exact (f_equal (List.map snd)
           (scan_valid (length d) 18 (Some 47%N) _ V eq_refl)).
Qed.

(** C5. For a canonical DOI [d], converting it to its URL and back gives
    [d] again, as a one-element list for the list form and as a string for
    the scalar form.  (The mapping helper is modelled from the spec.) *)
Theorem to_canonical_to_url (d : str) :
  doi.is_valid d = true ->
  doi.to_canonical (doi.to_url (Many [d])) = Some (Many [d]) /\
  doi.to_canonical (doi.to_url (One d)) = Some (One d).
Proof.
  intros V. unfold doi.to_canonical, doi.to_url, map_or_apply.
  cbn [List.map first_of_each]. unfold doi.extract_from_text.
  rewrite (findall_url _ V). split; reflexivity.
Qed.

(** C8. When extraction recovers no identifier from the input, be it one
    string or a list of strings, [to_canonical] returns [None]; it never
    returns an empty sequence.  (The mapping helper is modelled from the
    spec.) *)
Theorem to_canonical_none :
  (forall s, doi.extract_from_text s = [] -> doi.to_canonical (One s) = None) /\
  (forall l, (forall u, In u l -> doi.extract_from_text u = []) ->
             doi.to_canonical (Many l) = None) /\
  (forall a, doi.to_canonical a <> Some (Many [])).
Proof.
  unfold doi.to_canonical, map_or_apply. split; [| split].
  - intros s ->. reflexivity.
  - intros [| u l] H; [reflexivity |].
    cbn [first_of_each]. now rewrite (H u (or_introl eq_refl)).
  - intros [s | l].
    + destruct (hd_error (doi.extract_from_text s)); discriminate.
    + destruct (first_of_each doi.extract_from_text l) as [[| x xs] |];
        discriminate.
Qed.

End ExtractClaims.

(** ** Substrings *)



Lemma infix_app_l d a b : infix d a -> infix d (a ++ b).
Proof.
  intros (pre & post & ->). exists pre, (post ++ b).
  now rewrite <- !app_assoc.
Qed.

Lemma infix_app_r d a b : infix d b -> infix d (a ++ b).
Proof.
  intros (pre & post & ->). exists (a ++ pre), post.
  now rewrite <- !app_assoc.
Qed.

Lemma prefix_before (x : char) (d : str) : forall a b post,
  ~ In x d -> d ++ post = a ++ x :: b -> exists a', a = d ++ a'.
Proof.
  induction d as [| y d IH]; intros a b post N E.
  - now exists a.
  - destruct a as [| z a]; simpl in E; inversion E; subst.
    + exfalso. apply N. now left.
    + destruct (IH a b post) as (a' & ->); auto.
      * intros K. apply N. now right.
      * now exists a'.
Qed.




Section StripFacts.
Context {U : UnicodeData}.


End StripFacts.

(** * The claims about identifiers.py *)

Section ScannerClaims.
Context {U : UnicodeData}.

Import identifiers.

(** C9. A source whose name ends neither in .pdf nor in .djvu gives the
    [(None, None)] result, and no call is made: no process is spawned. *)
Theorem find_identifiers_unsupported (reg : registry) (src : str) (proc : child) :
  endswith src (str_of ".pdf") = false ->
  endswith src (str_of ".djvu") = false ->
  find_identifiers reg src proc = (Returns NotFound, []).
Proof.
  intros H1 H2. unfold find_identifiers. now rewrite H1, H2.
Qed.



Lemma first_hit_doi (b : str) :
  first_hit valid_identifiers b
  = (match doi.extract_from_text b with
     | x :: _ => Some ("doi"%string, x)
     | [] => None
     end, [Extract "doi" b]).
Proof.
  unfold valid_identifiers. cbn [first_hit extract_from_text].
  now destruct (doi.extract_from_text b).
Qed.


Lemma poll_loop_idle k :
  fst (poll_loop valid_identifiers (repeat [] k)) = Returns NotFound.
Proof.
  induction k as [| k IH]; [reflexivity |].
  cbn [repeat poll_loop decode_lines]. rewrite first_hit_doi.
  change (doi.extract_from_text (buffer_of [])) with (@nil str).
  now destruct (poll_loop valid_identifiers (repeat [] k)).
Qed.

Lemma poll_loop_until_eof output k n d :
  fst (poll_loop valid_identifiers (output :: repeat [] k))
  = Returns (Found n d) ->
  exists texts,
    decode_lines output = Some texts /\
    poll_loop valid_identifiers (output :: repeat [] k)
    = (Returns (Found "doi" d),
       [Poll true; Readlines output; Extract "doi" (buffer_of texts);
        Terminate]).
Proof.
  cbn [poll_loop].
  destruct (decode_lines output) as [texts |]; [| discriminate].
  rewrite first_hit_doi.
  destruct (doi.extract_from_text (buffer_of texts)) as [| x xs].
  - pose proof (poll_loop_idle k) as I.
    destruct (poll_loop valid_identifiers (repeat [] k)) as [o tr].
    cbn [fst] in *. rewrite I. discriminate.
  - cbn [fst]. intros [= <- <-]. now exists texts.
Qed.

(** C6. The scanner does not stream.  [readlines()] returns at end of file,
    so whenever an identifier is returned the calls made are these: the
    process is started, found running once, all of its output is read in
    one call, the buffer built from the whole output is scanned once, and
    the process is terminated after it has written everything. *)
Theorem find_identifiers_reads_all
  (src : str) (output : list bytes) (polls : nat) (n : string) (d : str) :
  fst (find_identifiers valid_identifiers src (until_eof output polls))
  = Returns (Found n d) ->
  exists argv texts,
    decode_lines output = Some texts /\
    find_identifiers valid_identifiers src (until_eof output polls)
    = (Returns (Found "doi" d),
       [Popen argv; Poll true; Readlines output;
        Extract "doi" (buffer_of texts); Terminate]).
Proof.
  unfold find_identifiers, until_eof, spawn.
  assert (K : forall argv,
             fst (let (o, tr) :=
                    poll_loop valid_identifiers
                      match polls with
                      | O => []
                      | S k => output :: repeat [] k
                      end in (o, Popen argv :: tr))
             = Returns (Found n d) ->
             exists texts,
               decode_lines output = Some texts /\
               (let (o, tr) :=
                  poll_loop valid_identifiers
                    match polls with
                    | O => []
                    | S k => output :: repeat [] k
                    end in (o, Popen argv :: tr))
               = (Returns (Found "doi" d),
                  [Popen argv; Poll true; Readlines output;
                   Extract "doi" (buffer_of texts); Terminate])).
  { intros argv. destruct polls as [| k]; [discriminate |]. intros H.
    destruct (@poll_loop_until_eof output k n d) as (texts & D & E).
    - now destruct (poll_loop valid_identifiers (output :: repeat [] k)).
    - exists texts. split; [exact D |]. now rewrite E. }
  destruct (endswith src (str_of ".pdf")).
  - intros H. destruct (K _ H) as (texts & D & E).
    eexists. exists texts. split; [exact D | exact E].
  - destruct (endswith src (str_of ".djvu")); [| discriminate].
    intros H. destruct (K _ H) as (texts & D & E).
    eexists. exists texts. split; [exact D | exact E].
Qed.

End ScannerClaims.

(** ** The fuel of the scan is enough *)

Section Fuel.
Context {U : UnicodeData}.

(** Once the fuel exceeds the length of the remaining text, more fuel does
    not change what the scan reports. *)
Lemma scan_fuel_enough (p : pattern) : forall fuel1 fuel2 off c,
  length (rest c) < fuel1 -> length (rest c) < fuel2 ->
  scan p fuel1 off c = scan p fuel2 off c.
Proof.
  induction fuel1 as [| f1 IH]; intros fuel2 off c H1 H2; [lia |].
  destruct fuel2 as [| f2]; [lia |]. cbn [scan].
  assert (match rest c with
          | [] => []
          | x :: r => scan p f1 (S off) (Some x, r)
          end
          = match rest c with
            | [] => []
            | x :: r => scan p f2 (S off) (Some x, r)
            end) as Next.
  { destruct (rest c) as [| x r] eqn:E; [reflexivity |].
    apply IH; cbn [rest snd]; simpl in H1, H2; lia. }
  destruct (hd_error (attempts p c)) as [m |]; [| exact Next].
  f_equal.
  destruct (Nat.ltb_spec (length (rest (m_end m))) (length (rest c))) as [L | L];
    [| exact Next].
  apply IH; lia.
Qed.

End Fuel.

(** * Concrete runs *)

(** C2. The scanner raises instead of returning [(None, None)] when the
    conversion process cannot be started and when its output is not valid
    UTF-8; with no output at all it returns [(None, None)]. *)
Theorem find_identifiers_raises :
  identifiers.find_identifiers identifiers.valid_identifiers
    (str_of "paper.pdf") identifiers.SpawnFails
  = (identifiers.Raises identifiers.OSError,
     [identifiers.Popen [str_of "pdftotext"; str_of "paper.pdf"; str_of "-"]])
  /\
  identifiers.find_identifiers identifiers.valid_identifiers
    (str_of "paper.pdf") (identifiers.Runs [[[255%N; 10%N]]])
  = (identifiers.Raises identifiers.UnicodeDecodeError,
     [identifiers.Popen [str_of "pdftotext"; str_of "paper.pdf"; str_of "-"];
      identifiers.Poll true; identifiers.Readlines [[255%N; 10%N]]])
  /\
  fst (identifiers.find_identifiers identifiers.valid_identifiers
         (str_of "paper.pdf") (identifiers.Runs []))
  = identifiers.Returns identifiers.NotFound
  /\
  fst (identifiers.find_identifiers identifiers.valid_identifiers
         (str_of "paper.pdf") (identifiers.Runs [[]; []]))
  = identifiers.Returns identifiers.NotFound.
Proof. repeat split; vm_compute; reflexivity. Qed.

(** C3, counterexample: a valid DOI that stays valid with one more
    character at the end. *)
Lemma trailing_character_counterexample :
  doi.is_valid (str_of "10.1234/abc") = true /\
  doi.is_valid (str_of "10.1234/abc" ++ str_of "d") = true.
Proof. split; vm_compute; reflexivity. Qed.

Lemma is_valid_extra_character_witness :
  doi.is_valid (str_of "10.1234/abc") = true /\
  doi.is_valid (41%N :: str_of "10.1234/abc") = false /\
  doi.is_valid (str_of "10.1234/abc" ++ [41%N]) = is_word 41%N.
Proof.
  split; [vm_compute; reflexivity |].
  apply (is_valid_extra_character (str_of "10.1234/abc") 41%N).
  vm_compute; reflexivity.
Defined.

Lemma to_canonical_to_url_witness :
  doi.is_valid (str_of "10.1209/0295-5075/111/40005") = true /\
  doi.to_canonical (doi.to_url (Many [str_of "10.1209/0295-5075/111/40005"]))
  = Some (Many [str_of "10.1209/0295-5075/111/40005"]) /\
  doi.to_canonical (doi.to_url (One (str_of "10.1209/0295-5075/111/40005")))
  = Some (One (str_of "10.1209/0295-5075/111/40005")).
Proof.
  split; [vm_compute; reflexivity |].
  apply (to_canonical_to_url (str_of "10.1209/0295-5075/111/40005")).
  vm_compute; reflexivity.
Defined.

Lemma extract_from_text_valid_witness :
  In (str_of "10.1209/0295-5075/111/40005")
     (doi.extract_from_text
        (str_of "10.1209/0295-5075/111/40005 junk <geo coords=10.4515260,51.1656910></geo>"))
  /\ doi.is_valid (str_of "10.1209/0295-5075/111/40005") = true.
Proof.
  assert (In (str_of "10.1209/0295-5075/111/40005")
     (doi.extract_from_text
        (str_of "10.1209/0295-5075/111/40005 junk <geo coords=10.4515260,51.1656910></geo>")))
    as H by (vm_compute; left; reflexivity).
  split; [exact H |].
  exact (extract_from_text_valid _ _ H).
Defined.

Lemma find_identifiers_unsupported_witness :
  endswith (str_of "paper.txt") (str_of ".pdf") = false /\
  endswith (str_of "paper.txt") (str_of ".djvu") = false /\
  identifiers.find_identifiers identifiers.valid_identifiers
    (str_of "paper.txt") identifiers.SpawnFails
  = (identifiers.Returns identifiers.NotFound, []).
Proof.
  split; [vm_compute; reflexivity |]. split; [vm_compute; reflexivity |].
  apply find_identifiers_unsupported; vm_compute; reflexivity.
Defined.


Lemma find_identifiers_reads_all_witness :
  exists argv texts,
    identifiers.decode_lines
      [bytes_of " doi:10.1234/abc " ++ [10%N]; bytes_of "page two" ++ [10%N];
       bytes_of "page three" ++ [10%N]] = Some texts /\
    identifiers.find_identifiers identifiers.valid_identifiers
      (str_of "paper.pdf")
      (identifiers.until_eof
         [bytes_of " doi:10.1234/abc " ++ [10%N];
          bytes_of "page two" ++ [10%N];
          bytes_of "page three" ++ [10%N]] 1)
    = (identifiers.Returns (identifiers.Found "doi" (str_of "10.1234/abc")),
       [identifiers.Popen argv; identifiers.Poll true;
        identifiers.Readlines
          [bytes_of " doi:10.1234/abc " ++ [10%N];
           bytes_of "page two" ++ [10%N];
           bytes_of "page three" ++ [10%N]];
        identifiers.Extract "doi" (identifiers.buffer_of texts);
        identifiers.Terminate]).
Proof.
  apply (@find_identifiers_reads_all latin1 (str_of "paper.pdf")
           [bytes_of " doi:10.1234/abc " ++ [10%N];
            bytes_of "page two" ++ [10%N];
            bytes_of "page three" ++ [10%N]] 1 "doi" (str_of "10.1234/abc")).
  vm_compute; reflexivity.
Defined.

(** * Further properties of doi.py *)

(** ** The grammar in plain terms *)

Section GrammarFacts.
Context {U : UnicodeData}.

Lemma matches_class_repeat (p : char -> bool) n pv s q r :
  matches (Repeat n (Set_ p)) (pv, s) (q, r) <->
  exists w, s = w ++ r /\ forallb p w = true /\ n <= length w /\ q = after pv w.
Proof.
  rewrite <- (run_spec (Repeat n (Set_ p)) eq_refl).
  change (run (Repeat n (Set_ p)) (pv, s))
    with (greedy (step p) (length s) n (pv, s)).
  rewrite greedy_step by lia. apply in_class_loop.
Qed.

Lemma is_group_dd g : is_group g -> forallb is_dd g = true.
Proof.
  intros (ds & -> & _ & F). cbn [forallb].
  change (is_dd 46%N) with true. cbn [andb].
  eapply forallb_weaken; [| exact F]. intros c H. unfold is_dd.
  now rewrite H.
Qed.

Lemma groups_dd gs : Forall is_group gs -> forallb is_dd (concat gs) = true.
Proof.
  induction 1 as [| g gs Hg _ IH]; [reflexivity |].
  cbn [concat]. now rewrite forallb_app, (is_group_dd Hg), IH.
Qed.

Lemma matches_groups a b :
  matches (Repeat 0 (Cat (Set_ is_dot) (Repeat 1 (Set_ is_digit)))) a b <->
  exists gs, Forall is_group gs /\ rest a = concat gs ++ rest b /\
             prev b = after (prev a) (concat gs).
Proof.
  split.
  - intros (k & _ & Hk). revert a Hk.
    induction k as [| k IH]; intros a Hk.
    + simpl in Hk. subst b. exists []. now repeat split.
    + destruct Hk as (m & Hm & Hk).
      destruct (IH _ Hk) as (gs & Fg & Er & Ep).
      destruct Hm as (m1 & (x & t & Ea & Hx & ->) & Hd).
      destruct m as [qm rm].
      apply matches_class_repeat in Hd.
      destruct Hd as (w & -> & Fw & Lw & ->).
      unfold is_dot in Hx. apply N.eqb_eq in Hx. subst x.
      exists ((46%N :: w) :: gs). split; [| split].
      * constructor; [| exact Fg]. exists w. repeat split; auto.
        intros ->. simpl in Lw. lia.
      * cbn [rest snd] in Er. rewrite Ea. simpl. rewrite <- app_assoc.
        now rewrite Er.
      * rewrite Ep. cbn [prev fst]. simpl. now rewrite after_app.
  - intros (gs & Fg & Er & Ep). revert a Er Ep.
    induction Fg as [| g gs Hg Fg IH]; intros a Er Ep.
    + exists 0. split; [lia |]. simpl in *. destruct a, b. simpl in *.
      now subst.
    + destruct Hg as (ds & -> & Nd & Fd).
      set (m := (after (Some 46%N) ds, concat gs ++ rest b)).
      destruct (IH m) as (k & _ & Hk).
      * reflexivity.
      * rewrite Ep. subst m. cbn [prev fst]. simpl. now rewrite after_app.
      * exists (S k). split; [lia |]. exists m. split; [| exact Hk].
        exists (Some 46%N, ds ++ concat gs ++ rest b). split.
        -- exists 46%N, (ds ++ concat gs ++ rest b). split; [| now split].
           rewrite Er. simpl. now rewrite <- app_assoc.
        -- apply matches_class_repeat. exists ds. repeat split; auto.
           destruct ds; [congruence | simpl; lia].
Qed.

(** What the part of [REGEX] up to the slash matches. *)
Lemma matches_prefix_plain pv s e :
  matches doi_prefix (pv, s) e <->
  exists ds gs t,
    s = 49%N :: 48%N :: 46%N :: ds ++ concat gs ++ 47%N :: t /\
    forallb is_digit ds = true /\ 4 <= length ds /\ Forall is_group gs /\
    e = (Some 47%N, t).
Proof.
  unfold doi_prefix. cbn [matches]. split.
  - intros (m1 & (t1 & E1 & ->) & m2 & (t2 & E2 & ->) &
            m3 & (x & t3 & E3 & Hx & ->) & m4 & Hd & m5 & Hg & t & E5 & ->).
    cbn [rest snd] in *. subst s t1.
    unfold is_dot in Hx. apply N.eqb_eq in Hx. subst x t2.
    destruct m4 as [q4 r4].
    apply (matches_class_repeat is_digit 4) in Hd.
    destruct Hd as (ds & -> & Fd & Ld & ->).
    apply matches_groups in Hg. destruct Hg as (gs & Fg & Er & _).
    cbn [rest snd] in Er. rewrite E5 in Er. subst r4.
    exists ds, gs, t. now repeat split.
  - intros (ds & gs & t & -> & Fd & Ld & Fg & ->).
    exists (Some 49%N, 48%N :: 46%N :: ds ++ concat gs ++ 47%N :: t).
    split; [now eexists |].
    exists (Some 48%N, 46%N :: ds ++ concat gs ++ 47%N :: t).
    split; [now eexists |].
    exists (Some 46%N, ds ++ concat gs ++ 47%N :: t).
    split; [exists 46%N; now eexists |].
    exists (after (Some 46%N) ds, concat gs ++ 47%N :: t). split.
    + apply (matches_class_repeat is_digit 4). exists ds. now repeat split.
    + exists (after (after (Some 46%N) ds) (concat gs), 47%N :: t). split.
      * apply matches_groups. exists gs. now repeat split.
      * now exists t.
Qed.

Lemma valid_grammar s : doi.is_valid s = true -> doi_grammar s.
Proof.
  intros V. apply valid_inv in V.
  destruct V as (w & a & [-> Fw Sw Pw Fa Na La]).
  pose proof (Pw None a) as P0. apply matches_prefix_plain in P0.
  destruct P0 as (ds & gs & t & E & Fd & Ld & Fg & Et).
  injection Et as <-.
  exists ds, gs, a. split; [exact E | repeat split; auto].
  now rewrite (after_nonempty None (Some 47%N) Na).
Qed.

Lemma grammar_shape s :
  doi_grammar s -> exists w a, doi_shape s w a.
Proof.
  intros (ds & gs & a & -> & Fd & Ld & Fg & Na & Fa & La).
  exists (49%N :: 48%N :: 46%N :: ds ++ concat gs), a.
  constructor; auto.
  - simpl. now rewrite <- !app_assoc.
  - change (forallb is_dd (49%N :: 48%N :: 46%N :: ds ++ concat gs))
      with (forallb is_dd (ds ++ concat gs)).
    rewrite forallb_app. apply andb_true_iff.
    split; [| exact (groups_dd Fg)].
    eapply forallb_weaken; [| exact Fd]. intros c H. unfold is_dd.
    now rewrite H.
  - now eexists.
  - intros pv t. apply matches_prefix_plain. exists ds, gs, t.
    split; [simpl; now rewrite <- !app_assoc | now repeat split].
  - now rewrite (after_nonempty (Some 47%N) None Na).
Qed.

(** X1. [is_valid] accepts exactly the strings of the plain grammar. *)
Theorem is_valid_iff_grammar (s : str) :
  doi.is_valid s = true <-> doi_grammar s.
Proof.
  split.
  - apply valid_grammar.
  - intros G. destruct (grammar_shape G) as (w & a & Sh).
    exact (valid_intro Sh).
Qed.

End GrammarFacts.

(** ** Characters and ends of a valid DOI *)

Section ValidFacts.
Context {U : UnicodeData}.

Lemma dd_plain c : is_dd c = true -> isspace c = false /\ is_quote c = false.
Proof.
  unfold is_dd, is_dot, is_digit, isspace, ascii_isspace, is_quote, in_range.
  intros H. split; char_cases.
Qed.

(** X2. A valid DOI contains no white space and none of the characters of
    the lookahead class (double quote, ampersand, apostrophe); it starts
    with [10.], has at least nine characters and ends in a word
    character. *)
Theorem valid_doi_characters (d : str) :
  doi.is_valid d = true ->
  (forall c, In c d -> isspace c = false /\ is_quote c = false) /\
  starts_with [49; 48; 46]%N d = true /\
  9 <= length d /\
  exists x, after None d = Some x /\ is_word x = true.
Proof.
  intros V. apply valid_grammar in V.
  destruct V as (ds & gs & a & -> & Fd & Ld & Fg & Na & Fa & La).
  split; [| split; [| split]].
  - intros c Hc.
    assert (is_dd c = true \/ c = 47%N \/ In c a) as K.
    { destruct Hc as [<- | [<- | [<- | Hc]]]; try (left; reflexivity).
      apply in_app_or in Hc. destruct Hc as [Hc | Hc].
      - left. unfold is_dd. rewrite forallb_forall in Fd.
        now rewrite (Fd _ Hc).
      - apply in_app_or in Hc. destruct Hc as [Hc | [<- | Hc]]; auto.
        left. pose proof (groups_dd Fg) as G.
        rewrite forallb_forall in G. now apply G. }
    destruct K as [K | [-> | K]].
    + now apply dd_plain.
    + split; reflexivity.
    + rewrite forallb_forall in Fa. specialize (Fa _ K).
      unfold suffix_char, is_nonspace in Fa.
      apply andb_true_iff in Fa. destruct Fa as [F1 F2].
      apply negb_true_iff in F1. apply negb_true_iff in F2. now split.
  - reflexivity.
  - simpl. rewrite !length_app. simpl.
    destruct a; [congruence | simpl; lia].
  - assert (after None (49%N :: 48%N :: 46%N :: ds ++ concat gs ++ 47%N :: a)
            = after None a) as ->.
    { change (49%N :: 48%N :: 46%N :: ds ++ concat gs ++ 47%N :: a)
        with ([49%N; 48%N; 46%N] ++ ds ++ concat gs ++ [47%N] ++ a).
      rewrite !after_app. now apply after_nonempty. }
    destruct (after None a) as [x |]; [| discriminate]. now exists x.
Qed.

(** X3. Extraction is stable on what it extracts: the scan of a text it
    has reported finds that text and nothing else. *)
Theorem findall_of_match (t x : str) :
  In x (findall doi.REGEX t) -> findall doi.REGEX x = [x].
Proof.
  rewrite in_findall. intros (o & H). unfold finditer in H.
  destruct (scan_reports _ _ _ _ _ H) as (c' & m & Hm & -> & _).
  apply findall_valid. exact (first_attempt_valid _ Hm).
Qed.

(** Where the first attempt at a cursor ends. *)
Lemma first_attempt_end c m :
  hd_error (attempts doi.REGEX c) = Some m ->
  prev (m_end m) = after (prev c) (group1 m) /\
  word_opt (hd_error (rest (m_end m))) = false /\
  group1 m <> [] /\
  rest c = group1 m ++ rest (m_end m).
Proof.
  intros H. destruct (first_attempt_inv _ H) as (B & t & [q b] & Hp & He & ->).
  destruct (prefix_shape Hp) as (w & t' & E & [= <-] & Fw & Sw & Pw).
  destruct (first_end_inv _ He) as (a & -> & Na & Fa & -> & Bq & La).
  assert (span_text c (after (Some 47%N) a, b) = w ++ 47%N :: a) as G.
  { unfold span_text. cbn [rest snd] in *. rewrite E.
    replace (w ++ 47%N :: a ++ b) with ((w ++ 47%N :: a) ++ b)
      by (now rewrite <- app_assoc).
    apply firstn_app_exact. }
  unfold group1, mk_match. cbn [m_end g1_start g1_end prev rest fst snd].
  rewrite G. split; [| split; [| split]].
  - now rewrite after_app.
  - unfold at_boundary in Bq. cbn [prev rest fst snd] in Bq.
    rewrite La in Bq. now destruct (word_opt (hd_error b)).
  - now destruct w.
  - cbn [rest snd] in E. rewrite E. now rewrite <- app_assoc.
Qed.

Lemma no_attempt_at_nonword c :
  word_opt (hd_error (rest c)) = false -> attempts doi.REGEX c = [].
Proof.
  intros W. apply first_attempt_none. right. intros e.
  destruct c as [pv [| y r]].
  - apply no_prefix_at_end.
  - apply no_prefix_other. intros ->. discriminate.
Qed.

Lemma scan_context t fuel : forall off c pre o x,
  t = pre ++ rest c -> length pre = off -> prev c = after None pre ->
  In (o, x) (scan doi.REGEX fuel off c) ->
  exists pre' post,
    t = pre' ++ x ++ post /\ length pre' = o /\
    word_opt (after None pre') = false /\ word_opt (hd_error post) = false.
Proof.
  induction fuel as [| f IH]; intros off c pre o x Et Lp Pp H; [contradiction |].
  cbn [scan] in H.
  assert (In (o, x) match rest c with
                    | [] => []
                    | y :: r => scan doi.REGEX f (S off) (Some y, r)
                    end ->
          exists pre' post,
            t = pre' ++ x ++ post /\ length pre' = o /\
            word_opt (after None pre') = false /\
            word_opt (hd_error post) = false) as Next.
  { destruct (rest c) as [| y r] eqn:Er; [contradiction |].
    apply (IH (S off) (Some y, r) (pre ++ [y])).
    - now rewrite <- app_assoc.
    - rewrite length_app. simpl. lia.
    - now rewrite after_snoc. }
  destruct (hd_error (attempts doi.REGEX c)) as [m |] eqn:E; [| exact (Next H)].
  destruct (first_attempt_end _ E) as (Pe & We & Ng & Er).
  destruct (first_attempt_shape _ E) as (_ & _ & _ & _ & Wc & _).
  destruct H as [H | H].
  - inversion H; subst o x. exists pre, (rest (m_end m)).
    split; [now rewrite <- Er |]. split; [exact Lp |].
    split; [now rewrite <- Pp | exact We].
  - assert (length (rest (m_end m)) < length (rest c)) as Lt.
    { rewrite Er, length_app. destruct (group1 m); [congruence | simpl; lia]. }
    apply Nat.ltb_lt in Lt. rewrite Lt in H. apply Nat.ltb_lt in Lt.
    revert H. apply (IH _ (m_end m) (pre ++ group1 m)).
    + now rewrite <- app_assoc, <- Er.
    + rewrite length_app, Er, length_app. lia.
    + now rewrite Pe, Pp, after_app.
Qed.

(** X5. Every match stands in the text at the offset it is reported with,
    and it is delimited: the character before it, if any, and the character
    after it, if any, are not word characters. *)
Theorem match_in_context (t : str) (o : nat) (x : str) :
  In (o, x) (finditer doi.REGEX t) ->
  exists pre post,
    t = pre ++ x ++ post /\ length pre = o /\
    word_opt (after None pre) = false /\ word_opt (hd_error post) = false.
Proof.
  unfold finditer. intros H.
  eapply (@scan_context t) with (pre := []); [| | | exact H]; reflexivity.
Qed.

Lemma scan_after_nonword fuel off c :
  word_opt (hd_error (rest c)) = false ->
  Forall (fun p => off < fst p) (scan doi.REGEX fuel off c).
Proof.
  intros W. destruct fuel as [| f]; [constructor |].
  cbn [scan]. rewrite (no_attempt_at_nonword _ W). cbn [hd_error].
  destruct (rest c) as [| y r]; [constructor |].
  destruct (scan_offsets doi.REGEX f (S off) (Some y, r)) as [_ F].
  eapply Forall_impl; [| exact F]. intros a. simpl. lia.
Qed.

Lemma scan_apart fuel : forall off c,
  StronglySorted (fun p q => fst p + length (snd p) < fst q)
                 (scan doi.REGEX fuel off c).
Proof.
  induction fuel as [| f IH]; intros off c; [constructor |].
  cbn [scan].
  assert (StronglySorted (fun p q => fst p + length (snd p) < fst q)
            match rest c with
            | [] => []
            | y :: r => scan doi.REGEX f (S off) (Some y, r)
            end) as Next.
  { destruct (rest c); [constructor | apply IH]. }
  destruct (hd_error (attempts doi.REGEX c)) as [m |] eqn:E; [| exact Next].
  destruct (first_attempt_end _ E) as (_ & We & Ng & Er).
  assert (length (rest (m_end m)) < length (rest c)) as Lt.
  { rewrite Er, length_app. destruct (group1 m); [congruence | simpl; lia]. }
  apply Nat.ltb_lt in Lt. rewrite Lt. constructor; [apply IH |].
  replace (length (rest c) - length (rest (m_end m))) with (length (group1 m))
    by (rewrite Er at 1; rewrite length_app; lia).
  exact (scan_after_nonword f (off + length (group1 m)) _ We).
Qed.

(** X4. Matches do not overlap and do not touch: each one starts after the
    character that follows the end of the one before. *)
Theorem matches_apart (t : str) :
  StronglySorted (fun p q => fst p + length (snd p) < fst q)
                 (finditer doi.REGEX t).
Proof. apply scan_apart. Qed.

End ValidFacts.

(** ** Extraction and white space *)

Section WhiteSpace.
Context {U : UnicodeData}.

Lemma space_facts x :
  isspace x = true ->
  is_word x = false /\ suffix_char x = false /\ is_dd x = false /\ x <> 47%N.
Proof.
  intros H.
  assert (suffix_char x = false) as S
    by (unfold suffix_char, is_nonspace; rewrite H; apply andb_false_r).
  split; [| split; [exact S | split]].
  - destruct (is_word x) eqn:W; [| reflexivity].
    apply word_is_suffix_char in W. congruence.
  - destruct (is_dd x) eqn:D; [| reflexivity].
    apply dd_plain in D. destruct D. congruence.
  - intros ->. revert H. unfold isspace. simpl. discriminate.
Qed.

Lemma class_loop_extend p x v : p x = false -> forall t min pv,
  class_loop p min pv (t ++ x :: v)
  = List.map (extend (x :: v)) (class_loop p min pv t).
Proof.
  intros Px. induction t as [| y t IH]; intros min pv.
  - cbn [app class_loop]. rewrite Px. now destruct min.
  - cbn [app class_loop]. destruct (p y).
    + rewrite IH, map_app. now destruct min.
    + now destruct min.
Qed.

Lemma at_boundary_extend x v c :
  is_word x = false -> at_boundary (extend (x :: v) c) = at_boundary c.
Proof.
  intros W. destruct c as [pv [| y r]]; unfold at_boundary, extend; simpl.
  - now rewrite W.
  - reflexivity.
Qed.

Lemma filter_map_same (A : Type) (f : A -> bool) (g : A -> A) l :
  (forall a, f (g a) = f a) ->
  filter f (List.map g l) = List.map g (filter f l).
Proof.
  intros H. induction l as [| a l IH]; simpl; [reflexivity |].
  rewrite H, IH. now destruct (f a).
Qed.

Lemma first_end_extend x v t :
  isspace x = true ->
  first_end (t ++ x :: v) = option_map (extend (x :: v)) (first_end t).
Proof.
  intros H. destruct (space_facts _ H) as (W & S & _).
  unfold first_end. rewrite (class_loop_extend suffix_char x v S).
  rewrite filter_map_same by (intros a; now apply at_boundary_extend).
  now destruct (filter at_boundary (class_loop suffix_char 1 (Some 47%N) t)).
Qed.

Lemma prefix_not_beyond x v pv u e :
  isspace x = true -> matches doi_prefix (pv, u ++ x :: v) e ->
  exists w t, u = w ++ 47%N :: t /\ e = (Some 47%N, t ++ x :: v) /\
              matches doi_prefix (pv, u) (Some 47%N, t).
Proof.
  intros H M. destruct (space_facts _ H) as (_ & _ & D & N47).
  destruct (prefix_shape M) as (w & t0 & E & -> & Fw & _ & Pw).
  cbn [rest snd] in E.
  assert (~ In x (w ++ [47%N])) as Nx.
  { intros K. apply in_app_or in K. destruct K as [K | [K | []]].
    - rewrite forallb_forall in Fw. rewrite (Fw _ K) in D. discriminate.
    - congruence. }
  assert ((w ++ [47%N]) ++ t0 = u ++ x :: v) as E'
    by (rewrite <- app_assoc; now symmetry).
  destruct (@prefix_before x (w ++ [47%N]) u v t0 Nx E') as (t & ->).
  rewrite <- !app_assoc in E'. apply app_inv_head in E'.
  simpl in E'. injection E' as ->.
  exists w, t. rewrite <- app_assoc. split; [reflexivity |].
  split; [reflexivity | apply Pw].
Qed.

Lemma prefix_boundary_same pv s1 e1 s2 e2 :
  matches doi_prefix (pv, s1) e1 -> matches doi_prefix (pv, s2) e2 ->
  at_boundary (pv, s1) = at_boundary (pv, s2).
Proof.
  intros H1 H2. exact (eq_trans (prefix_boundary H1) (eq_sym (prefix_boundary H2))).
Qed.

(** The first attempt at a cursor is not affected by white space further
    on, except that the text after the match is longer. *)
Lemma attempt_extend x v pv u :
  isspace x = true ->
  hd_error (attempts doi.REGEX (pv, u ++ x :: v))
  = option_map (fun m => mk_match (pv, u ++ x :: v) (extend (x :: v) (m_end m)))
               (hd_error (attempts doi.REGEX (pv, u))).
Proof.
  intros H.
  destruct (hd_error (attempts doi.REGEX (pv, u))) as [m |] eqn:E.
  - destruct (first_attempt_inv _ E) as (B & t & e & Hp & He & ->).
    destruct (prefix_shape Hp) as (w & t' & Eu & [= <-] & _ & _ & Pw).
    cbn [rest snd] in Eu. subst u.
    rewrite (@first_attempt_intro _ (pv, (w ++ 47%N :: t) ++ x :: v) (t ++ x :: v)).
    + rewrite first_end_extend by exact H. rewrite He. reflexivity.
    + rewrite <- app_assoc. cbn [app].
      exact (eq_trans (prefix_boundary_same (Pw pv (t ++ x :: v)) Hp) B).
    + rewrite <- app_assoc. apply Pw.
  - cbn [option_map].
    destruct (hd_error (attempts doi.REGEX (pv, u ++ x :: v))) as [m |] eqn:E';
      [| reflexivity].
    exfalso.
    destruct (first_attempt_inv _ E') as (B & t & e & Hp & He & ->).
    destruct (@prefix_not_beyond x v pv u _ H Hp) as (w & t1 & -> & [= ->] & Hp1).
    rewrite first_end_extend in He by exact H.
    destruct (first_end t1) as [e1 |] eqn:E1; [| discriminate].
    rewrite (@first_attempt_intro _ (pv, w ++ 47%N :: t1) t1) in E.
    + rewrite E1 in E. discriminate.
    + exact (eq_trans (prefix_boundary_same Hp1 Hp) B).
    + exact Hp1.
Qed.

End WhiteSpace.

Section ScanTexts.
Context {U : UnicodeData}.

Lemma scan_texts_off (p : pattern) fuel : forall off off' c,
  List.map snd (scan p fuel off c) = List.map snd (scan p fuel off' c).
Proof.
  induction fuel as [| f IH]; intros off off' c; [reflexivity |].
  cbn [scan].
  assert (List.map snd match rest c with
                       | [] => []
                       | y :: r => scan p f (S off) (Some y, r)
                       end
          = List.map snd match rest c with
                         | [] => []
                         | y :: r => scan p f (S off') (Some y, r)
                         end) as Next
    by (destruct (rest c); [reflexivity | apply IH]).
  destruct (hd_error (attempts p c)) as [m |]; [| exact Next].
  cbn [List.map snd]. f_equal.
  destruct (length (rest (m_end m)) <? length (rest c)); [apply IH | exact Next].
Qed.

Lemma texts_eq fuel off c :
  length (rest c) < fuel -> List.map snd (scan doi.REGEX fuel off c) = texts c.
Proof.
  intros H. unfold texts.
  rewrite (@scan_fuel_enough U doi.REGEX fuel (S (length (rest c))) off c) by lia.
  apply scan_texts_off.
Qed.

Lemma texts_step c :
  texts c
  = match hd_error (attempts doi.REGEX c) with
    | Some m => group1 m :: texts (m_end m)
    | None => match rest c with
              | [] => []
              | y :: r => texts (Some y, r)
              end
    end.
Proof.
  unfold texts at 1. cbn [scan].
  destruct (hd_error (attempts doi.REGEX c)) as [m |] eqn:E.
  - destruct (first_attempt_end _ E) as (_ & _ & Ng & Er).
    assert (length (rest (m_end m)) < length (rest c)) as Lt.
    { rewrite Er, length_app. destruct (group1 m); [congruence | simpl; lia]. }
    apply Nat.ltb_lt in Lt. rewrite Lt. apply Nat.ltb_lt in Lt.
    cbn [List.map snd]. f_equal. apply texts_eq. exact Lt.
  - destruct (rest c) as [| y r] eqn:Er; [reflexivity |].
    apply texts_eq. simpl. lia.
Qed.

Lemma attempt_prev pv pv' s :
  word_opt pv = word_opt pv' ->
  hd_error (attempts doi.REGEX (pv', s))
  = option_map (fun m => mk_match (pv', s) (m_end m))
               (hd_error (attempts doi.REGEX (pv, s))).
Proof.
  intros W.
  assert (forall q q' (Wq : word_opt q = word_opt q') m,
            hd_error (attempts doi.REGEX (q, s)) = Some m ->
            hd_error (attempts doi.REGEX (q', s))
            = Some (mk_match (q', s) (m_end m))) as K.
  { intros q q' Wq m E.
    destruct (first_attempt_inv _ E) as (B & t & e & Hp & He & ->).
    destruct (prefix_shape Hp) as (w & t' & Es & [= <-] & _ & _ & Pw).
    cbn [rest snd] in Es. subst s.
    rewrite (@first_attempt_intro _ (q', w ++ 47%N :: t) t).
    - now rewrite He.
    - pose proof (prefix_boundary (Pw q' t)) as B'.
      pose proof (prefix_boundary Hp) as B0.
      rewrite <- Wq in B'. exact (eq_trans B' (eq_trans (eq_sym B0) B)).
    - apply Pw. }
  destruct (hd_error (attempts doi.REGEX (pv, s))) as [m |] eqn:E.
  - exact (K pv pv' W m E).
  - destruct (hd_error (attempts doi.REGEX (pv', s))) as [m' |] eqn:E';
      [| reflexivity].
    rewrite (K pv' pv (eq_sym W) m' E') in E. discriminate.
Qed.

Lemma texts_prev pv pv' s :
  word_opt pv = word_opt pv' -> texts (pv', s) = texts (pv, s).
Proof.
  intros W. rewrite (texts_step (pv', s)), (texts_step (pv, s)).
  rewrite (attempt_prev pv pv' s W).
  destruct (hd_error (attempts doi.REGEX (pv, s))) as [m |] eqn:E;
    [| reflexivity].
  destruct (first_attempt_inv _ E) as (_ & t & e & _ & _ & ->).
  reflexivity.
Qed.

Lemma texts_split x v : isspace x = true -> forall n u pv,
  length u <= n ->
  texts (pv, u ++ x :: v) = texts (pv, u) ++ texts (Some x, v).
Proof.
  intros H. induction n as [| n IH]; intros u pv Ln.
  - destruct u; [| simpl in Ln; lia].
    rewrite (texts_step (pv, [] ++ x :: v)), (texts_step (pv, [])).
    rewrite (no_attempt_at_nonword (pv, [])) by reflexivity.
    rewrite (no_attempt_at_nonword (pv, [] ++ x :: v)).
    + reflexivity.
    + cbn. now destruct (space_facts _ H) as (-> & _).
  - rewrite (texts_step (pv, u ++ x :: v)), (texts_step (pv, u)).
    rewrite attempt_extend by exact H.
    destruct (hd_error (attempts doi.REGEX (pv, u))) as [m |] eqn:E.
    + destruct (first_attempt_end _ E) as (_ & _ & Ng & Er).
      cbn [rest snd] in Er. cbn [option_map].
      destruct (m_end m) as [q b] eqn:Em. cbn [rest snd] in Er.
      unfold extend. cbn [fst snd m_end mk_match].
      assert (group1 (mk_match (pv, u ++ x :: v) (q, b ++ x :: v)) = group1 m)
        as ->.
      { unfold group1 at 1, mk_match, span_text.
        cbn [g1_start g1_end rest snd]. rewrite Er at 1 2.
        rewrite <- app_assoc. apply firstn_app_exact. }
      cbn [app]. f_equal. apply IH.
      assert (length u = length (group1 m) + length b) as Lu
        by (rewrite Er at 1; apply length_app).
      destruct (group1 m); [congruence | simpl in Lu; lia].
    + cbn [option_map]. destruct u as [| y u].
      * reflexivity.
      * cbn [app rest snd]. apply IH. simpl in Ln. lia.
Qed.

Lemma findall_texts s : findall doi.REGEX s = texts (None, s).
Proof. reflexivity. Qed.

Lemma texts_space u v x :
  isspace x = true ->
  texts (None, u ++ x :: v) = texts (None, u) ++ texts (None, v).
Proof.
  intros H. rewrite (@texts_split x v H (length u) u None (le_n _)). f_equal.
  apply texts_prev. cbn. now destruct (space_facts _ H) as (-> & _).
Qed.

(** X6. White space separates: the matches in a text that contains a
    white-space character are the matches before it followed by the
    matches after it. *)
Theorem findall_split (u v : str) (x : char) :
  isspace x = true ->
  findall doi.REGEX (u ++ x :: v)
  = findall doi.REGEX u ++ findall doi.REGEX v.
Proof.
  intros H.
  change (texts (None, u ++ x :: v) = texts (None, u) ++ texts (None, v)).
  rewrite (@texts_split x v H (length u) u None (le_n _)). f_equal.
  apply texts_prev. cbn. now destruct (space_facts _ H) as (-> & _).
Qed.

End ScanTexts.

Section BufferScan.
Context {U : UnicodeData}.

Lemma findall_nil : findall doi.REGEX [] = [].
Proof. reflexivity. Qed.

Lemma findall_space u v x :
  isspace x = true ->
  findall doi.REGEX (u ++ x :: v) = findall doi.REGEX u ++ findall doi.REGEX v.
Proof. intros H. rewrite !findall_texts. now apply texts_space. Qed.

Lemma findall_spaces sp :
  forallb isspace sp = true -> findall doi.REGEX sp = [].
Proof.
  induction sp as [| x sp IH]; intros F; [reflexivity |].
  simpl in F. apply andb_true_iff in F. destruct F as [Hx F].
  change (x :: sp) with ([] ++ x :: sp).
  rewrite (findall_space [] sp x Hx), findall_nil. now apply IH.
Qed.

Lemma findall_app_spaces s sp :
  forallb isspace sp = true ->
  findall doi.REGEX (s ++ sp) = findall doi.REGEX s.
Proof.
  destruct sp as [| x sp]; intros F; [now rewrite app_nil_r |].
  simpl in F. apply andb_true_iff in F. destruct F as [Hx F].
  now rewrite (findall_space s sp x Hx), (findall_spaces sp F), app_nil_r.
Qed.

Lemma findall_drop_while s :
  findall doi.REGEX (drop_while isspace s) = findall doi.REGEX s.
Proof.
  induction s as [| x s IH]; [reflexivity |].
  cbn [drop_while]. destruct (isspace x) eqn:Hx; [| reflexivity].
  rewrite IH. change (x :: s) with ([] ++ x :: s).
  now rewrite (findall_space [] s x Hx), findall_nil.
Qed.

Lemma findall_strip u : findall doi.REGEX (strip u) = findall doi.REGEX u.
Proof.
  unfold strip.
  rewrite <- (findall_drop_while u).
  set (s := drop_while isspace u).
  pose proof (take_drop_while isspace (rev s)) as E.
  apply (f_equal (@rev char)) in E.
  rewrite rev_involutive, rev_app_distr in E.
  rewrite E at 2. symmetry. apply findall_app_spaces.
  apply forallb_forall. intros c Hc. apply in_rev in Hc.
  pose proof (take_while_all isspace (rev s)) as T.
  rewrite forallb_forall in T. now apply T.
Qed.

Lemma findall_join l :
  findall doi.REGEX (join [32%N] l) = flat_map (findall doi.REGEX) l.
Proof.
  induction l as [| x l IH]; [reflexivity |].
  destruct l as [| y l].
  - simpl. now rewrite app_nil_r.
  - change (join [32%N] (x :: y :: l)) with (x ++ 32%N :: join [32%N] (y :: l)).
    refine (eq_trans (findall_space x (join [32%N] (y :: l)) 32%N eq_refl) _).
    now rewrite IH.
Qed.

Lemma findall_buffer l :
  findall doi.REGEX (identifiers.buffer_of l) = flat_map (findall doi.REGEX) l.
Proof.
  unfold identifiers.buffer_of. rewrite findall_join.
  induction l as [| u l IH]; [reflexivity |].
  cbn [List.map flat_map]. now rewrite findall_strip, IH.
Qed.

(** X7. Stripping a line does not change what is extracted from it, and the
    matches in lines joined by single spaces are the matches of the lines,
    in order. *)
Theorem findall_strip_join :
  (forall u, findall doi.REGEX (strip u) = findall doi.REGEX u) /\
  (forall l, findall doi.REGEX (join [32%N] l)
             = flat_map (findall doi.REGEX) l) /\
  (forall l, findall doi.REGEX (identifiers.buffer_of l)
             = flat_map (findall doi.REGEX) l).
Proof.
  split; [exact findall_strip |]. split; [exact findall_join |].
  exact findall_buffer.
Qed.

End BufferScan.

(** * Further properties of identifiers.py *)

Section ScannerFacts.
Context {U : UnicodeData}.

Import identifiers.

Lemma findall_member_valid t x :
  In x (findall doi.REGEX t) -> doi.is_valid x = true.
Proof.
  rewrite in_findall. intros (o & H). unfold finditer in H.
  destruct (scan_reports _ _ _ _ _ H) as (c' & m & Hm & -> & _).
  exact (first_attempt_valid _ Hm).
Qed.



Lemma poll_loop_step lines later :
  poll_loop valid_identifiers (lines :: later)
  = match decode_lines lines with
    | None => (Raises UnicodeDecodeError, [Poll true; Readlines lines])
    | Some texts =>
        match doi.extract_from_text (buffer_of texts) with
        | x :: _ =>
            (Returns (Found "doi" x),
             [Poll true; Readlines lines; Extract "doi" (buffer_of texts);
              Terminate])
        | [] =>
            (fst (poll_loop valid_identifiers later),
             Poll true :: Readlines lines :: Extract "doi" (buffer_of texts)
             :: snd (poll_loop valid_identifiers later))
        end
    end.
Proof.
  cbn [poll_loop]. destruct (decode_lines lines) as [texts |]; [| reflexivity].
  rewrite first_hit_doi.
  destruct (doi.extract_from_text (buffer_of texts)); [| reflexivity].
  now destruct (poll_loop valid_identifiers later).
Qed.


Lemma poll_loop_found reads : forall n d,
  fst (poll_loop valid_identifiers reads) = Returns (Found n d) ->
  n = "doi"%string /\
  exists lines texts u,
    In lines reads /\ decode_lines lines = Some texts /\ In u texts /\
    In d (findall doi.REGEX u).
Proof.
  induction reads as [| lines later IH]; intros n d H; [discriminate |].
  rewrite poll_loop_step in H.
  destruct (decode_lines lines) as [texts |] eqn:D; [| discriminate].
  destruct (doi.extract_from_text (buffer_of texts)) as [| x xs] eqn:E.
  - cbn [fst] in H. destruct (IH _ _ H) as (-> & l & ts & u & Hl & Hd & Hu & Hx).
    split; [reflexivity |]. exists l, ts, u. repeat split; auto. now right.
  - cbn [fst] in H. injection H as <- <-. split; [reflexivity |].
    assert (In x (findall doi.REGEX (buffer_of texts))) as K
      by (apply in_extract; rewrite E; now left).
    rewrite findall_buffer in K.
    apply in_flat_map in K. destruct K as (u & Hu & Hx).
    exists lines, texts, u. repeat split; auto. now left.
Qed.

Lemma find_identifiers_found src proc n d :
  fst (find_identifiers valid_identifiers src proc) = Returns (Found n d) ->
  exists reads, proc = Runs reads /\
                fst (poll_loop valid_identifiers reads) = Returns (Found n d).
Proof.
  intros H. unfold find_identifiers, spawn in H.
  destruct (endswith src (str_of ".pdf")).
  - destruct proc as [| reads]; [discriminate |]. exists reads.
    split; [reflexivity |].
    now destruct (poll_loop valid_identifiers reads).
  - destruct (endswith src (str_of ".djvu")); [| discriminate].
    destruct proc as [| reads]; [discriminate |]. exists reads.
    split; [reflexivity |].
    now destruct (poll_loop valid_identifiers reads).
Qed.

(** X8. Whatever the scanner returns as found is sound: its type is "doi",
    it is a valid DOI, and it is one of the matches of a single line of the
    output of the conversion process. *)
Theorem find_identifiers_sound (src : str) (proc : child) (n : string) (d : str) :
  fst (find_identifiers valid_identifiers src proc) = Returns (Found n d) ->
  n = "doi"%string /\ doi.is_valid d = true /\
  exists reads lines texts u,
    proc = Runs reads /\ In lines reads /\ decode_lines lines = Some texts /\
    In u texts /\ In d (findall doi.REGEX u).
Proof.
  intros H. destruct (find_identifiers_found _ _ H) as (reads & -> & P).
  destruct (@poll_loop_found reads n d P) as (-> & l & ts & u & Hl & Hd & Hu & Hx).
  split; [reflexivity |]. split; [exact (findall_member_valid _ _ Hx) |].
  exists reads, l, ts, u. now repeat split.
Qed.



Lemma first_hit_no_terminate reg : forall b, ~ In Terminate (snd (first_hit reg b)).
Proof.
  induction reg as [| [name [m |]] reg IH]; intros b; cbn [first_hit].
  - intros [].
  - destruct (extract_from_text m b).
    + specialize (IH b). destruct (first_hit reg b) as [r ev].
      cbn [snd] in *. intros [K | K]; [discriminate | contradiction].
    + cbn [snd]. intros [K | []]. discriminate.
  - apply IH.
Qed.

Lemma first_hit_found reg : forall b,
  fst (first_hit reg b) = None \/ exists n d, fst (first_hit reg b) = Some (n, d).
Proof.
  intros b. destruct (fst (first_hit reg b)) as [[n d] |]; [right | now left].
  now exists n, d.
Qed.

Lemma poll_loop_terminate reg reads :
  In Terminate (snd (poll_loop reg reads)) <->
  exists n d, fst (poll_loop reg reads) = Returns (Found n d).
Proof.
  induction reads as [| lines later IH]; cbn [poll_loop].
  - cbn [fst snd]. split.
    + intros [K | []]. discriminate.
    + intros (n & d & K). discriminate.
  - destruct (decode_lines lines) as [texts |].
    + pose proof (first_hit_no_terminate reg (buffer_of texts)) as NT.
      destruct (first_hit reg (buffer_of texts)) as [[[n d] |] ev].
      * cbn [fst snd] in *. split; [intros _; now exists n, d |].
        intros _. right. right. apply in_or_app. right. now left.
      * destruct (poll_loop reg later) as [o tr]. cbn [fst snd] in *.
        rewrite <- IH. split.
        -- intros [K | [K | K]]; try discriminate.
           apply in_app_or in K. destruct K as [K | K]; [contradiction | exact K].
        -- intros K. right. right. apply in_or_app. now right.
    + cbn [fst snd]. split.
      * intros [K | [K | []]]; discriminate.
      * intros (n & d & K). discriminate.
Qed.

(** X10. The scanner terminates the conversion process exactly when it
    returns an identifier; when it returns [(None, None)] or raises, the
    process is left alone. *)
Theorem terminate_iff_found (reg : registry) (src : str) (proc : child) :
  In Terminate (snd (find_identifiers reg src proc)) <->
  exists n d, fst (find_identifiers reg src proc) = Returns (Found n d).
Proof.
  unfold find_identifiers, spawn.
  assert (forall argv,
            In Terminate (snd (match proc with
                                | SpawnFails => (Raises OSError, [Popen argv])
                                | Runs reads =>
                                    let (o, tr) := poll_loop reg reads in
                                    (o, Popen argv :: tr)
                                end)) <->
            exists n d,
              fst (match proc with
                   | SpawnFails => (Raises OSError, [Popen argv])
                   | Runs reads =>
                       let (o, tr) := poll_loop reg reads in
                       (o, Popen argv :: tr)
                   end) = Returns (Found n d)) as K.
  { intros argv. destruct proc as [| reads].
    - cbn [fst snd]. split.
      + intros [K | []]. discriminate.
      + intros (n & d & K). discriminate.
    - pose proof (poll_loop_terminate reg reads) as P.
      destruct (poll_loop reg reads) as [o tr]. cbn [fst snd] in *.
      rewrite <- P. split.
      + intros [K | K]; [discriminate | exact K].
      + intros K. now right. }
  destruct (endswith src (str_of ".pdf")); [apply K |].
  destruct (endswith src (str_of ".djvu")); [apply K |].
  cbn [fst snd]. split; [intros [] | intros (n & d & E); discriminate].
Qed.

End ScannerFacts.

(** * Further properties of the lookups *)

Section LookupFacts.

Lemma raise_for_status_ok r :
  raise_for_status r = if http_ok r then Ret tt else Exc HTTPError.
Proof.
  unfold raise_for_status, http_ok.
  now destruct (N.leb 400 (resp_status r) && N.ltb (resp_status r) 600).
Qed.

Ltac settle e :=
  repeat match goal with
         | |- context [caught_by ?c e] =>
             let b := eval vm_compute in (caught_by c e) in
             change (caught_by c e) with b
         end.

Ltac run_py :=
  cbn [try_except py_bind getitem iterate first_item py_assert is_dict];
  settle KeyError; settle TypeError; settle AssertionError;
  settle IndexError; settle HTTPError; cbv iota.

(** What is left of a raised exception after the [except] clause. *)
Ltac uncaught Ec :=
  match goal with
  | |- context [caught_by ?c ?x] => destruct (caught_by c x) eqn:Ec
  end.

(** X11. [get_oa_version] raises exactly what its [except] clause does not
    catch of: what the request raises; what [json()] raises on an answer
    that passes the status check (a [RecursionError], say); and the
    [TypeError] of subscripting a JSON body that is not a dict, or a [paper]
    that is not a dict in a body with the status [ok]. *)
Theorem get_oa_version_exceptions (net : network) (doi : str) (e : pyexn) :
  doi.get_oa_version net doi = Exc e <->
  caught_by ["AssertionError"; "ValueError"; "KeyError";
             "RequestException"]%string e = false /\
  (net GET (doi.DISSEMIN_API ++ doi) [] = Exc e \/
   exists r,
     net GET (doi.DISSEMIN_API ++ doi) [] = Ret r /\ http_ok r = true /\
     (resp_json r = Exc e \/
      exists v,
        resp_json r = Ret v /\ e = TypeError /\
        (is_dict v = false \/
         exists st p,
           getitem v (str_of "status") = Ret st /\
           eq_str st (str_of "ok") = true /\
           getitem v (str_of "paper") = Ret p /\ is_dict p = false))).
Proof.
  unfold doi.get_oa_version. split.
  - destruct (net GET (doi.DISSEMIN_API ++ doi) []) as [r | x] eqn:En; run_py.
    2:{ uncaught Ec; [discriminate |]. intros [= <-].
        split; [exact Ec | now left]. }
    rewrite raise_for_status_ok.
    destruct (http_ok r) eqn:Ho; run_py; [| discriminate].
    destruct (resp_json r) as [v | x] eqn:Ej; run_py.
    2:{ uncaught Ec; [discriminate |]. intros [= <-].
        split; [exact Ec |]. right. exists r.
        split; [reflexivity |]. split; [exact Ho | now left]. }
    intros H.
    enough (K : e = TypeError /\
                (is_dict v = false \/
                 exists st p,
                   getitem v (str_of "status") = Ret st /\
                   eq_str st (str_of "ok") = true /\
                   getitem v (str_of "paper") = Ret p /\
                   is_dict p = false)).
    { destruct K as [-> K]. split; [reflexivity |]. right. exists r.
      split; [reflexivity |]. split; [exact Ho |]. right. now exists v. }
    destruct v as [| b | l | s | l | items];
      try (injection H as <-; split; [reflexivity | now left]).
    revert H. run_py.
    destruct (dict_get (str_of "status") items) as [st |] eqn:Es; run_py;
      [| discriminate].
    destruct (eq_str st (str_of "ok")) eqn:Eo; run_py; [| discriminate].
    destruct (dict_get (str_of "paper") items) as [p |] eqn:Ep; run_py;
      [| discriminate].
    intros H.
    enough (K : e = TypeError /\ is_dict p = false).
    { destruct K as [-> K]. split; [reflexivity |]. right. exists st, p.
      now repeat split. }
    destruct p as [| b | l | s | l | pitems];
      try (injection H as <-; now split).
    revert H. run_py.
    now destruct (dict_get (str_of "pdf_url") pitems); run_py.
  - intros (Hc & [En | (r & En & Ho & [Ej | (v & Ej & -> & D)])]).
    + rewrite En. run_py. now rewrite Hc.
    + rewrite En. run_py. rewrite raise_for_status_ok, Ho. run_py.
      rewrite Ej. run_py. now rewrite Hc.
    + rewrite En. run_py. rewrite raise_for_status_ok, Ho. run_py.
      rewrite Ej. run_py.
      destruct D as [D | (st & p & Hs & Ho' & Hp & D)]; [now destruct v |].
      rewrite Hs. run_py. rewrite Ho'. run_py. rewrite Hp. run_py.
      now destruct p.
Qed.

(** X12. Anything but [None] that [get_oa_version] returns is the [pdf_url]
    of the [paper] of an answer that passed the status check, whose JSON
    body is a dict with the status [ok]; and every such [pdf_url] is
    returned. *)
Theorem get_oa_version_found (net : network) (doi : str) (v : json) :
  v <> JNull ->
  (doi.get_oa_version net doi = Ret v <->
   exists r items st pitems,
     net GET (doi.DISSEMIN_API ++ doi) [] = Ret r /\ http_ok r = true /\
     resp_json r = Ret (JDict items) /\
     dict_get (str_of "status") items = Some st /\
     eq_str st (str_of "ok") = true /\
     dict_get (str_of "paper") items = Some (JDict pitems) /\
     dict_get (str_of "pdf_url") pitems = Some v).
Proof.
  intros Nv. unfold doi.get_oa_version. split.
  - assert (K : forall P : Prop, Ret JNull = Ret v -> P).
    { intros P H. injection H as <-. now destruct Nv. }
    destruct (net GET (doi.DISSEMIN_API ++ doi) []) as [r | x] eqn:En; run_py.
    2:{ uncaught Ec; [apply K | discriminate]. }
    rewrite raise_for_status_ok.
    destruct (http_ok r) eqn:Ho; run_py; [| apply K].
    destruct (resp_json r) as [w | x] eqn:Ej; run_py.
    2:{ uncaught Ec; [apply K | discriminate]. }
    destruct w as [| b | l | s | l | items]; run_py; try discriminate.
    destruct (dict_get (str_of "status") items) as [st |] eqn:Es; run_py;
      [| apply K].
    destruct (eq_str st (str_of "ok")) eqn:Eo; run_py; [| apply K].
    destruct (dict_get (str_of "paper") items) as [p |] eqn:Ep; run_py;
      [| apply K].
    destruct p as [| b | l | s | l | pitems]; run_py; try discriminate.
    destruct (dict_get (str_of "pdf_url") pitems) as [x |] eqn:Eu; run_py;
      [| apply K].
    intros H. injection H as <-. exists r, items, st, pitems.
    now repeat split.
  - intros (r & items & st & pitems & -> & Ho & Ej & Es & Eo & Ep & Eu).
    run_py. rewrite raise_for_status_ok, Ho. run_py. rewrite Ej. run_py.
    rewrite Es. run_py. rewrite Eo. run_py. rewrite Ep. run_py.
    now rewrite Eu.
Qed.

Lemma with_doi_dicts doi pubs :
  doi.with_doi doi (List.map JDict pubs)
  = if forallb has_doi pubs
    then Ret (List.map JDict (filter (doi_is doi) pubs))
    else Exc KeyError.
Proof.
  induction pubs as [| pub pubs IH]; [reflexivity |].
  cbn [List.map doi.with_doi forallb filter]. unfold has_doi at 1, doi_is at 1.
  run_py. destruct (dict_get (str_of "doi") pub) as [d |]; [| reflexivity].
  run_py. rewrite IH. cbn [andb].
  destruct (forallb has_doi pubs); [| reflexivity]. run_py.
  now destruct (eq_str d doi).
Qed.

Lemma find_filter (A : Type) (f : A -> bool) l :
  find f l = hd_error (filter f l).
Proof.
  induction l as [| x l IH]; [reflexivity |]. simpl.
  now destruct (f x).
Qed.

(** X13. On an answer of the expected shape, whose publications are a list
    of dicts, [get_oa_policy] does not raise.  It returns the [policy] of
    the first publication whose [doi] is the given one, and [None] if there
    is none or it has no policy; but one publication without a [doi] key
    makes the result [None], whatever the others hold. *)
Theorem get_oa_policy_publications (net : network) (doi : str) (r : response)
  (items pitems : list (str * json)) (st : json)
  (pubs : list (list (str * json))) :
  net GET (doi.DISSEMIN_API ++ doi) [] = Ret r ->
  http_ok r = true ->
  resp_json r = Ret (JDict items) ->
  dict_get (str_of "status") items = Some st ->
  eq_str st (str_of "ok") = true ->
  dict_get (str_of "paper") items = Some (JDict pitems) ->
  dict_get (str_of "publications") pitems = Some (JList (List.map JDict pubs)) ->
  doi.get_oa_policy net doi
  = Ret (if forallb has_doi pubs
         then policy_of (find (doi_is doi) pubs)
         else JNull).
Proof.
  intros En Ho Ej Es Eo Ep Eu.
  unfold doi.get_oa_policy. rewrite En. run_py.
  rewrite raise_for_status_ok, Ho. run_py. rewrite Ej. run_py.
  rewrite Es. run_py. rewrite Eo. run_py. rewrite Ep. run_py.
  rewrite Eu. run_py. rewrite with_doi_dicts.
  destruct (forallb has_doi pubs); run_py; [| reflexivity].
  rewrite find_filter.
  destruct (filter (doi_is doi) pubs) as [| pub rest]; run_py;
    [reflexivity |].
  cbn [List.map hd_error policy_of]. run_py.
  now destruct (dict_get (str_of "policy") pub); run_py.
Qed.

Lemma with_doi_outcome doi items :
  match doi.with_doi doi items with
  | Ret m => meets_non_dict items = false /\ Forall (fun i => is_dict i = true) m
  | Exc e => if meets_non_dict items then e = TypeError else e = KeyError
  end.
Proof.
  induction items as [| i items IH]; [now split |].
  cbn [doi.with_doi meets_non_dict].
  destruct i as [| b | l | s | l | pub]; run_py; try reflexivity.
  unfold has_doi.
  destruct (dict_get (str_of "doi") pub) as [d |]; [| reflexivity].
  run_py. cbn [andb]. destruct (doi.with_doi doi items) as [m | x]; run_py.
  - destruct IH as [IH F]. split; [exact IH |].
    destruct (eq_str d doi); [now constructor | exact F].
  - exact IH.
Qed.

(** X14. [get_oa_policy] raises exactly what its [except] clause does not
    catch of: what the request raises; what [json()] raises on an answer
    that passes the status check; and the [TypeError] of a JSON body that
    is not a dict, of a [paper] that is not a dict in a body with the status
    [ok], of publications that cannot be gone through, or of a publication
    that is not a dict and comes before any dict without a [doi]. *)
Theorem get_oa_policy_exceptions (net : network) (doi : str) (e : pyexn) :
  doi.get_oa_policy net doi = Exc e <->
  caught_by ["AssertionError"; "ValueError"; "KeyError"; "RequestException";
             "IndexError"]%string e = false /\
  (net GET (doi.DISSEMIN_API ++ doi) [] = Exc e \/
   exists r,
     net GET (doi.DISSEMIN_API ++ doi) [] = Ret r /\ http_ok r = true /\
     (resp_json r = Exc e \/
      exists v,
        resp_json r = Ret v /\ e = TypeError /\
        (is_dict v = false \/
         exists st p,
           getitem v (str_of "status") = Ret st /\
           eq_str st (str_of "ok") = true /\
           getitem v (str_of "paper") = Ret p /\
           (is_dict p = false \/
            exists ps,
              getitem p (str_of "publications") = Ret ps /\
              match iterate ps with
              | Ret items => meets_non_dict items = true
              | Exc _ => True
              end)))).
Proof.
  unfold doi.get_oa_policy. split.
  - destruct (net GET (doi.DISSEMIN_API ++ doi) []) as [r | x] eqn:En; run_py.
    2:{ uncaught Ec; [discriminate |]. intros [= <-].
        split; [exact Ec | now left]. }
    rewrite raise_for_status_ok.
    destruct (http_ok r) eqn:Ho; run_py; [| discriminate].
    destruct (resp_json r) as [v | x] eqn:Ej; run_py.
    2:{ uncaught Ec; [discriminate |]. intros [= <-].
        split; [exact Ec |]. right. exists r.
        split; [reflexivity |]. split; [exact Ho | now left]. }
    intros H.
    enough (K : e = TypeError /\
                (is_dict v = false \/
                 exists st p,
                   getitem v (str_of "status") = Ret st /\
                   eq_str st (str_of "ok") = true /\
                   getitem v (str_of "paper") = Ret p /\
                   (is_dict p = false \/
                    exists ps,
                      getitem p (str_of "publications") = Ret ps /\
                      match iterate ps with
                      | Ret items => meets_non_dict items = true
                      | Exc _ => True
                      end))).
    { destruct K as [-> K]. split; [reflexivity |]. right. exists r.
      split; [reflexivity |]. split; [exact Ho |]. right. now exists v. }
    destruct v as [| b | l | s | l | items];
      try (injection H as <-; split; [reflexivity | now left]).
    revert H. run_py.
    destruct (dict_get (str_of "status") items) as [st |] eqn:Es; run_py;
      [| discriminate].
    destruct (eq_str st (str_of "ok")) eqn:Eo; run_py; [| discriminate].
    destruct (dict_get (str_of "paper") items) as [p |] eqn:Ep; run_py;
      [| discriminate].
    intros H.
    enough (K : e = TypeError /\
                (is_dict p = false \/
                 exists ps,
                   getitem p (str_of "publications") = Ret ps /\
                   match iterate ps with
                   | Ret items => meets_non_dict items = true
                   | Exc _ => True
                   end)).
    { destruct K as [-> K]. split; [reflexivity |]. right.
      exists st, p. now repeat split. }
    destruct p as [| b | l | s | l | pitems];
      try (injection H as <-; split; [reflexivity | now left]).
    revert H. run_py.
    destruct (dict_get (str_of "publications") pitems) as [ps |] eqn:Eu;
      run_py; [| discriminate].
    intros H.
    enough (K : e = TypeError /\
                match iterate ps with
                | Ret items => meets_non_dict items = true
                | Exc _ => True
                end).
    { destruct K as [-> K]. split; [reflexivity |]. right. now exists ps. }
    destruct (iterate ps) as [l | x] eqn:Ei.
    + revert H. run_py. pose proof (with_doi_outcome doi l) as W.
      destruct (doi.with_doi doi l) as [m | x]; run_py.
      * destruct m as [| first m]; run_py; [discriminate |].
        destruct W as [_ F]. inversion F as [| ? ? D _]; subst.
        destruct first as [| b | l0 | s | l0 | fi]; try discriminate. run_py.
        now destruct (dict_get (str_of "policy") fi); run_py.
      * destruct (meets_non_dict l); subst x; run_py; [| discriminate].
        intros H. now injection H as <-.
    + destruct ps; try discriminate; injection Ei as <-.
      all: revert H; run_py; intros H; now injection H as <-.
  - intros (Hc & [En | (r & En & Ho & [Ej | (v & Ej & -> & D)])]).
    + rewrite En. run_py. now rewrite Hc.
    + rewrite En. run_py. rewrite raise_for_status_ok, Ho. run_py.
      rewrite Ej. run_py. now rewrite Hc.
    + rewrite En. run_py. rewrite raise_for_status_ok, Ho. run_py.
      rewrite Ej. run_py.
      destruct D as [D | (st & p & Hs & Ho' & Hp & D)]; [now destruct v |].
      rewrite Hs. run_py. rewrite Ho'. run_py. rewrite Hp. run_py.
      destruct D as [D | (ps & Hps & D)]; [now destruct p |].
      rewrite Hps. run_py.
      destruct (iterate ps) as [l | x] eqn:Ei.
      * run_py. pose proof (with_doi_outcome doi l) as W. rewrite D in W.
        destruct (doi.with_doi doi l) as [m | x]; [now destruct W |].
        subst x. now run_py.
      * destruct ps; try discriminate; injection Ei as <-; now run_py.
Qed.

(** X15. What the lookups at dx.doi.org return and raise.  [get_bibtex]
    returns a text exactly when the request for the URL of the DOI, sent
    with the header that asks for BibTeX, is answered with a status that
    passes the check and the content type [application/x-bibtex]; the text
    is then the body of the answer.  [get_linked_version] checks no status:
    it returns the [location] header of any answer.  Each raises exactly
    what the request raises and its [except] clause does not catch, such as
    a [ValueError]. *)
Theorem dx_lookups (net : network) (doi : str) :
  (forall t,
     doi.get_bibtex net doi = Ret (Some t) <->
     exists r,
       net GET (doi.DX_URL ++ doi)
           [(str_of "accept", str_of "application/x-bibtex")] = Ret r /\
       http_ok r = true /\
       resp_header r (str_of "content-type")
       = Some (str_of "application/x-bibtex") /\
       resp_text r = t) /\
  (forall e,
     doi.get_bibtex net doi = Exc e <->
     net GET (doi.DX_URL ++ doi)
         [(str_of "accept", str_of "application/x-bibtex")] = Exc e /\
     caught_by ["RequestException"; "AssertionError"]%string e = false) /\
  (forall v,
     doi.get_linked_version net doi = Ret v <->
     (exists r, net HEAD (doi.DX_URL ++ doi) [] = Ret r /\
                v = resp_header r (str_of "location")) \/
     (exists e, net HEAD (doi.DX_URL ++ doi) [] = Exc e /\
                caught_by ["RequestException"]%string e = true /\ v = None)) /\
  (forall e,
     doi.get_linked_version net doi = Exc e <->
     net HEAD (doi.DX_URL ++ doi) [] = Exc e /\
     caught_by ["RequestException"]%string e = false).
Proof.
  split; [| split; [| split]].
  - intros t. unfold doi.get_bibtex.
    change (doi.url_of doi) with (doi.DX_URL ++ doi). split.
    + destruct (net GET (doi.DX_URL ++ doi) _) as [r | x]; run_py.
      2:{ uncaught Ec; discriminate. }
      rewrite raise_for_status_ok.
      destruct (http_ok r) eqn:Ho; run_py; [| discriminate].
      destruct (resp_header r (str_of "content-type")) as [ct |] eqn:Ec;
        cbn [opt_str_eqb]; run_py; [| discriminate].
      destruct (str_eqb ct _) eqn:Eq; run_py; [| discriminate].
      intros H. injection H as <-. exists r.
      apply str_eqb_eq in Eq. subst ct. now repeat split.
    + intros (r & -> & Ho & Ec & <-). run_py.
      rewrite raise_for_status_ok, Ho. run_py. rewrite Ec.
      cbn [opt_str_eqb].
      now rewrite (proj2 (str_eqb_eq _ _) (eq_refl (str_of "application/x-bibtex"))).
  - intros e. unfold doi.get_bibtex.
    change (doi.url_of doi) with (doi.DX_URL ++ doi). split.
    + destruct (net GET (doi.DX_URL ++ doi) _) as [r | x]; run_py.
      2:{ uncaught Ec; [discriminate |]. now intros [= <-]. }
      rewrite raise_for_status_ok.
      destruct (http_ok r); run_py; [| discriminate].
      now destruct (opt_str_eqb _ _); run_py.
    + intros (-> & Hc). run_py. now rewrite Hc.
  - intros v. unfold doi.get_linked_version.
    change (doi.url_of doi) with (doi.DX_URL ++ doi). split.
    + destruct (net HEAD (doi.DX_URL ++ doi) []) as [r | x]; run_py.
      * intros [= <-]. left. now exists r.
      * uncaught Ec; [| discriminate]. intros [= <-]. right. now exists x.
    + intros [(r & -> & ->) | (e & -> & Hc & ->)]; run_py; [reflexivity |].
      now rewrite Hc.
  - intros e. unfold doi.get_linked_version.
    change (doi.url_of doi) with (doi.DX_URL ++ doi). split.
    + destruct (net HEAD (doi.DX_URL ++ doi) []) as [r | x]; run_py;
        [discriminate |].
      uncaught Ec; [discriminate |]. now intros [= <-].
    + intros (-> & Hc). run_py. now rewrite Hc.
Qed.

End LookupFacts.

Section Pipeline.
Context {U : UnicodeData}.

(** X16. Fetching BibTeX for what the scanner returned: for nothing found
    it is [None] without any request; for an identifier it is what
    [doi.get_bibtex] does for it, value or exception, and the identifier is
    a valid DOI. *)
Theorem get_bibtex_of_scan (net : network) (src : str)
  (proc : identifiers.child) (r : identifiers.result) :
  fst (identifiers.find_identifiers identifiers.valid_identifiers src proc)
  = identifiers.Returns r ->
  match r with
  | identifiers.NotFound =>
      forall net',
        identifiers.get_bibtex (identifiers.valid_fetchers net') r = Ret None
  | identifiers.Found _ d =>
      doi.is_valid d = true /\
      identifiers.get_bibtex (identifiers.valid_fetchers net) r
      = doi.get_bibtex net d
  end.
Proof.
  intros H. destruct r as [| n d]; [reflexivity |].
  destruct (find_identifiers_found _ _ H) as (reads & -> & P).
  destruct (@poll_loop_found U reads n d P)
    as (-> & l & ts & u & Hl & Hd & Hu & Hx).
  split; [exact (findall_member_valid _ _ Hx) | reflexivity].
Qed.

End Pipeline.

(** * Further concrete runs *)

Lemma valid_doi_characters_witness :
  (forall c, In c (str_of "10.1209/0295-5075/111/40005") ->
             isspace c = false /\ is_quote c = false) /\
  starts_with [49; 48; 46]%N (str_of "10.1209/0295-5075/111/40005") = true /\
  9 <= length (str_of "10.1209/0295-5075/111/40005") /\
  exists x, after None (str_of "10.1209/0295-5075/111/40005") = Some x /\
            is_word x = true.
Proof.
  apply (@valid_doi_characters latin1 (str_of "10.1209/0295-5075/111/40005")).
  vm_compute; reflexivity.
Defined.

Lemma findall_of_match_witness :
  findall doi.REGEX (str_of "10.1234/abc") = [str_of "10.1234/abc"].
Proof.
  apply (@findall_of_match latin1 (str_of "see doi:10.1234/abc.")
           (str_of "10.1234/abc")).
  vm_compute. left; reflexivity.
Defined.

Lemma match_in_context_witness :
  exists pre post,
    str_of "see doi:10.1234/abc." = pre ++ str_of "10.1234/abc" ++ post /\
    length pre = 8 /\
    word_opt (after None pre) = false /\ word_opt (hd_error post) = false.
Proof.
  apply (@match_in_context latin1 (str_of "see doi:10.1234/abc.") 8
           (str_of "10.1234/abc")).
  vm_compute. left; reflexivity.
Defined.

Lemma findall_split_witness :
  findall doi.REGEX (str_of "10.1234/abc" ++ 10%N :: str_of "10.5678/def")
  = findall doi.REGEX (str_of "10.1234/abc")
    ++ findall doi.REGEX (str_of "10.5678/def").
Proof.
  apply (@findall_split latin1 (str_of "10.1234/abc") (str_of "10.5678/def")
           10%N).
  vm_compute; reflexivity.
Defined.

Lemma find_identifiers_sound_witness :
  "doi"%string = "doi"%string /\
  doi.is_valid (str_of "10.1234/abc") = true /\
  exists reads lines texts u,
    identifiers.Runs [[bytes_of "A title" ++ [10%N]];
                      [bytes_of " doi:10.1234/abc " ++ [10%N]]]
    = identifiers.Runs reads /\
    In lines reads /\ identifiers.decode_lines lines = Some texts /\
    In u texts /\ In (str_of "10.1234/abc") (findall doi.REGEX u).
Proof.
  apply (@find_identifiers_sound latin1 (str_of "paper.pdf")
           (identifiers.Runs [[bytes_of "A title" ++ [10%N]];
                              [bytes_of " doi:10.1234/abc " ++ [10%N]]])
           "doi" (str_of "10.1234/abc")).
  vm_compute; reflexivity.
Defined.


Lemma get_oa_version_exceptions_witness :
  doi.get_oa_version (always (broken_json 200 RecursionError))
    (str_of "10.1209/0295-5075/111/40005")
  = Exc RecursionError.
Proof.
  apply (proj2 (get_oa_version_exceptions
                  (always (broken_json 200 RecursionError))
                  (str_of "10.1209/0295-5075/111/40005") RecursionError)).
  split; [vm_compute; reflexivity |]. right.
  exists (broken_json 200 RecursionError).
  split; [reflexivity |]. split; [vm_compute; reflexivity |].
  left; reflexivity.
Defined.

Lemma get_oa_version_found_witness :
  doi.get_oa_version (always (json_response 200 dissemin_answer))
    (str_of "10.1209/0295-5075/111/40005")
  = Ret (JStr (str_of "http://arxiv.org/abs/1506.06690")) <->
  exists r items st pitems,
    always (json_response 200 dissemin_answer) GET
      (doi.DISSEMIN_API ++ str_of "10.1209/0295-5075/111/40005") [] = Ret r /\
    http_ok r = true /\
    resp_json r = Ret (JDict items) /\
    dict_get (str_of "status") items = Some st /\
    eq_str st (str_of "ok") = true /\
    dict_get (str_of "paper") items = Some (JDict pitems) /\
    dict_get (str_of "pdf_url") pitems
    = Some (JStr (str_of "http://arxiv.org/abs/1506.06690")).
Proof.
  apply (get_oa_version_found
           (always (json_response 200 dissemin_answer))
           (str_of "10.1209/0295-5075/111/40005")
           (v := JStr (str_of "http://arxiv.org/abs/1506.06690"))).
  discriminate.
Defined.

Lemma get_oa_policy_publications_witness :
  doi.get_oa_policy (always (json_response 200 dissemin_answer))
    (str_of "10.1209/0295-5075/111/40005")
  = Ret (JDict [(str_of "preprint", JStr (str_of "can"))]).
Proof.
  apply (@get_oa_policy_publications
           (always (json_response 200 dissemin_answer))
           (str_of "10.1209/0295-5075/111/40005")
           (json_response 200 dissemin_answer)
           dissemin_items dissemin_paper (JStr (str_of "ok"))
           dissemin_publications).
  - reflexivity.
  - vm_compute; reflexivity.
  - reflexivity.
  - vm_compute; reflexivity.
  - vm_compute; reflexivity.
  - vm_compute; reflexivity.
  - vm_compute; reflexivity.
Defined.

Lemma get_oa_policy_exceptions_witness :
  doi.get_oa_policy
    (always (json_response 200
               (JDict [(str_of "status", JStr (str_of "ok"));
                       (str_of "paper",
                        JDict [(str_of "publications", JList [JNull])])])))
    (str_of "10.1209/0295-5075/111/40005")
  = Exc TypeError.
Proof.
  apply (proj2 (get_oa_policy_exceptions _ _ TypeError)).
  split; [vm_compute; reflexivity |]. right.
  eexists. split; [reflexivity |]. split; [vm_compute; reflexivity |]. right.
  eexists. split; [reflexivity |]. split; [reflexivity |]. right.
  exists (JStr (str_of "ok")), (JDict [(str_of "publications", JList [JNull])]).
  split; [vm_compute; reflexivity |]. split; [vm_compute; reflexivity |].
  split; [vm_compute; reflexivity |]. right.
  exists (JList [JNull]). split; vm_compute; reflexivity.
Defined.

Lemma dx_lookups_witness :
  doi.get_bibtex (failing ValueError) (str_of "10.1234/abc") = Exc ValueError /\
  doi.get_linked_version (failing ValueError) (str_of "10.1234/abc")
  = Exc ValueError.
Proof.
  destruct (dx_lookups (failing ValueError) (str_of "10.1234/abc"))
    as (_ & B & _ & L).
  split.
  - apply (proj2 (B ValueError)). split; [reflexivity | vm_compute; reflexivity].
  - apply (proj2 (L ValueError)). split; [reflexivity | vm_compute; reflexivity].
Defined.

Lemma get_bibtex_of_scan_witness :
  doi.is_valid (str_of "10.1234/abc") = true /\
  identifiers.get_bibtex
    (identifiers.valid_fetchers (always (bibtex_response (str_of "@article{}"))))
    (identifiers.Found "doi" (str_of "10.1234/abc"))
  = doi.get_bibtex (always (bibtex_response (str_of "@article{}")))
      (str_of "10.1234/abc").
Proof.
  apply (@get_bibtex_of_scan latin1
           (always (bibtex_response (str_of "@article{}")))
           (str_of "paper.pdf")
           (identifiers.Runs [[bytes_of " doi:10.1234/abc " ++ [10%N]]])
           (identifiers.Found "doi" (str_of "10.1234/abc"))).
  vm_compute; reflexivity.
Defined.
